(** * pcopy: the join handshake and the TCP-to-HTTP forwarder

    A shallow embedding of the [join] command of package [cmd] (the join
    orchestrator: [readServerInfo], [execJoin]) and of
    [server/tcp_forwarder.go]
    (the raw-socket bridge: [extractPath], [handleConn], [handleHelp],
    [connTimeoutReadCloser.Read], [listenAndServe], [shutdown]).

    Go strings are byte sequences: a [string] here is a Go string, a
    [list byte] is a Go [[]byte], and [string_of_bytes] is the conversion
    [string(b)].  Lengths and slice offsets are [nat]; HTTP status codes
    are [Z]. *)

From Stdlib Require Import List Bool Arith ZArith Lia Permutation.
From Stdlib Require Import Strings.String Strings.Ascii Strings.Byte.
Import ListNotations.

Local Open Scope string_scope.
Local Open Scope list_scope.

(** ** Go's [strings] and [bufio] helpers used by the two files *)

Module GoStrings.

Definition bytes := list byte.
Bind Scope list_scope with bytes.

(** [string(b)] for [b []byte]. *)
Definition string_of_bytes (b : bytes) : string := string_of_list_byte b.

(** [[]byte(s)]. *)
Definition bytes_of_string (s : string) : bytes := list_byte_of_string s.

(** The one-byte string ["\n"]. *)
Definition LF : string := String (ascii_of_byte x0a) EmptyString.

(** [s[n:]] on a string. *)
Fixpoint drop (n : nat) (s : string) : string :=
  match n, s with
  | O, _ => s
  | S _, EmptyString => EmptyString
  | S n', String _ s' => drop n' s'
  end.

(** [s[:n]] on a string. *)
Fixpoint take (n : nat) (s : string) : string :=
  match n, s with
  | O, _ => EmptyString
  | S _, EmptyString => EmptyString
  | S n', String c s' => String c (take n' s')
  end.

(** [strings.HasPrefix(s, prefix)]. *)
Definition HasPrefix (s prefix : string) : bool := String.prefix prefix s.

(** [strings.HasSuffix(s, suffix)]:
    [len(s) >= len(suffix) && s[len(s)-len(suffix):] == suffix]. *)
Definition HasSuffix (s suffix : string) : bool :=
  Nat.leb (String.length suffix) (String.length s)
  && String.eqb (drop (String.length s - String.length suffix) s) suffix.

(** [strings.TrimPrefix(s, prefix)]. *)
Definition TrimPrefix (s prefix : string) : string :=
  if HasPrefix s prefix then drop (String.length prefix) s else s.

(** [strings.TrimSuffix(s, suffix)]. *)
Definition TrimSuffix (s suffix : string) : string :=
  if HasSuffix s suffix then take (String.length s - String.length suffix) s else s.

(** [strings.Contains(s, substr)]: some suffix of [s] starts with [substr]. *)
Fixpoint Contains (s substr : string) : bool :=
  HasPrefix s substr ||
  match s with
  | EmptyString => false
  | String _ s' => Contains s' substr
  end.

(** [strings.Join(elems, sep)]. *)
Fixpoint Join (elems : list string) (sep : string) : string :=
  match elems with
  | [] => EmptyString
  | [e] => e
  | e :: rest => e ++ sep ++ Join rest sep
  end.

(** [unicode.IsSpace] on the UTF-8 encoding: the number of bytes of the
    white-space rune that starts [b], or [0] when [b] does not start with
    one.  The runes are U+0009..U+000D, U+0020, U+0085, U+00A0, U+1680,
    U+2000..U+200A, U+2028, U+2029, U+202F, U+205F and U+3000. *)
Definition spaceWidth (b : bytes) : nat :=
  match b with
  | (x09 | x0a | x0b | x0c | x0d | x20) :: _ => 1
  | xc2 :: (x85 | xa0) :: _ => 2
  | xe1 :: x9a :: x80 :: _ => 3
  | xe2 :: x80 ::
      (x80 | x81 | x82 | x83 | x84 | x85 | x86 | x87 | x88 | x89 | x8a
       | xa8 | xa9 | xaf) :: _ => 3
  | xe2 :: x81 :: x9f :: _ => 3
  | xe3 :: x80 :: x80 :: _ => 3
  | _ => 0
  end.

(** The same test at the end of a string ([utf8.DecodeLastRuneInString]):
    [b] is the string reversed. *)
Definition spaceWidthLast (b : bytes) : nat :=
  match b with
  | (x09 | x0a | x0b | x0c | x0d | x20) :: _ => 1
  | (x85 | xa0) :: xc2 :: _ => 2
  | x80 :: x9a :: xe1 :: _ => 3
  | (x80 | x81 | x82 | x83 | x84 | x85 | x86 | x87 | x88 | x89 | x8a
     | xa8 | xa9 | xaf) :: x80 :: xe2 :: _ => 3
  | x9f :: x81 :: xe2 :: _ => 3
  | x80 :: x80 :: xe3 :: _ => 3
  | _ => 0
  end.

(** The white space of one byte: ['\t'], ['\n'], ['\v'], ['\f'], ['\r']
    and [' ']. *)
Definition asciiSpace (b : byte) : bool :=
  match b with
  | x09 | x0a | x0b | x0c | x0d | x20 => true
  | _ => false
  end.

(** Strip runes from the front while [width] recognises one; every round
    removes at least one byte, so [length b] rounds are enough. *)
Fixpoint trimWhile (width : bytes -> nat) (rounds : nat) (b : bytes) : bytes :=
  match rounds with
  | O => b
  | S rounds' =>
      match width b with
      | O => b
      | S w => trimWhile width rounds' (skipn (S w) b)
      end
  end.

(** [strings.TrimSpace(s)]: leading and trailing white space removed. *)
Definition TrimSpace (s : string) : string :=
  let b := bytes_of_string s in
  let l := trimWhile spaceWidth (List.length b) b in
  string_of_bytes (rev (trimWhile spaceWidthLast (List.length l) (rev l))).

End GoStrings.

(** ** Go [error] values *)

Module GoError.

(** An [error] is compared by identity with the sentinel [io.EOF]
    ([c.lastErr == io.EOF]) and otherwise only read through [Error()].
    [fmt.Errorf("...: %w", err)] allocates a fresh error, never [io.EOF]. *)
Inductive error : Type :=
| io_EOF : error
| errorString (msg : string) : error.

(** [err.Error()]. *)
Definition Error (e : error) : string :=
  match e with
  | io_EOF => "EOF"
  | errorString msg => msg
  end.

(** [err == io.EOF]. *)
Definition is_EOF (e : option error) : bool :=
  match e with
  | Some io_EOF => true
  | _ => false
  end.

(** [errors.New(msg)]. *)
Definition errors_New (msg : string) : error := errorString msg.

(** [fmt.Errorf(prefix + ": %w", err)]. *)
Definition Errorf_wrap (prefix : string) (err : error) : error :=
  errorString (prefix ++ ": " ++ Error err).

End GoError.

(** ** server/tcp_forwarder.go: classification of the peeked bytes *)

Module Forwarder.
Import GoStrings GoError.

(** [bufio.Reader.ReadString(delim)] on a reader over an in-memory
    buffer: the bytes up to and including the first [delim]; when the
    buffer ends first, the bytes read so far together with [io.EOF]. *)
Fixpoint ReadBytes (delim : byte) (buf : bytes) : bytes * option error :=
  match buf with
  | [] => ([], Some io_EOF)
  | b :: rest =>
      if Byte.eqb b delim then ([b], None)
      else let (line, err) := ReadBytes delim rest in (b :: line, err)
  end.

Definition ReadString (delim : byte) (buf : bytes) : string * option error :=
  let (line, err) := ReadBytes delim buf in (string_of_bytes line, err).

(** [func extractPath(peaked []byte) (string, int)]. *)
Definition extractPath (peaked : bytes) : string * nat :=
  let (s, err) := ReadString x0a peaked in
  match err with
  | Some _ => ("", 0)
  | None =>
      if negb (HasPrefix s "pcopy:") then ("", 0)
      else (TrimSuffix (TrimPrefix s "pcopy:") LF, String.length s)
  end.

(** [peaked.PeakedBytes[offset:]], the part of the peek that is payload. *)
Definition payloadOf (peaked : bytes) : bytes :=
  skipn (snd (extractPath peaked)) peaked.

(** *** The timeout-bounded reader *)

Definition defaultReadTimeout : Z := 3 * 1000000000.
Definition bufferSizeBytes : nat := 16 * 1024.

(** A call made on a [net.Conn]. *)
Inductive ConnCall : Type :=
| CallSetReadDeadline (timeout : Z)
| CallRead
| CallClose.

(** The connection under a reader: what its coming [SetReadDeadline] and
    [Read] calls will answer, and the calls made on it so far (oldest
    first).  A connection with nothing left to answer accepts the
    deadline and reads as closed by the peer. *)
Record Conn : Type := {
  deadlineResults : list (option error);
  readResults : list (bytes * option error);
  calls : list ConnCall
}.

(** [conn.SetReadDeadline(time.Now().Add(timeout))]. *)
Definition SetReadDeadline (c : Conn) (timeout : Z) : Conn * option error :=
  ({| deadlineResults := tl (deadlineResults c);
      readResults := readResults c;
      calls := calls c ++ [CallSetReadDeadline timeout] |},
   hd None (deadlineResults c)).

(** [conn.Read(p)]: the bytes stored in [p] (so [n] is their number) and
    the error. *)
Definition connRead (c : Conn) : Conn * (bytes * option error) :=
  ({| deadlineResults := deadlineResults c;
      readResults := tl (readResults c);
      calls := calls c ++ [CallRead] |},
   hd ([], Some io_EOF) (readResults c)).

(** [conn.Close()]. *)
Definition connClose (c : Conn) : Conn :=
  {| deadlineResults := deadlineResults c;
     readResults := readResults c;
     calls := calls c ++ [CallClose] |}.

Record connTimeoutReadCloser : Type := {
  conn : Conn;
  timeout : Z;
  lastErr : option error
}.

(** [func (c *connTimeoutReadCloser) Read(p []byte) (n int, err error)]. *)
Definition Read (c : connTimeoutReadCloser)
  : connTimeoutReadCloser * (bytes * option error) :=
  if is_EOF (lastErr c) then (c, ([], Some io_EOF))
  else
    let (conn1, derr) := SetReadDeadline (conn c) (timeout c) in
    match derr with
    | Some e =>
        ({| conn := conn1; timeout := timeout c; lastErr := lastErr c |},
         ([], Some (Errorf_wrap "cannot set read deadline" e)))
    | None =>
        let '(conn2, (data, err)) := connRead conn1 in
        let err' :=
          match err with
          | Some e => if Contains (Error e) "i/o timeout" then Some io_EOF else err
          | None => None
          end in
        ({| conn := conn2; timeout := timeout c; lastErr := err' |}, (data, err'))
    end.

(** [func (c *connTimeoutReadCloser) Close() error]. *)
Definition Close (c : connTimeoutReadCloser) : connTimeoutReadCloser :=
  {| conn := connClose (conn c); timeout := timeout c; lastErr := lastErr c |}.

(** The reader after others have used its connection, which [touch]
    stands for. *)
Definition touched (touch : Conn -> Conn) (c : connTimeoutReadCloser)
  : connTimeoutReadCloser :=
  {| conn := touch (conn c); timeout := timeout c; lastErr := lastErr c |}.

(** [k] more reads on the same reader, the connection being used by
    others before each. *)
Fixpoint readAgain (touch : Conn -> Conn) (k : nat) (c : connTimeoutReadCloser)
  : connTimeoutReadCloser :=
  match k with
  | O => c
  | S k' => readAgain touch k' (fst (Read (touched touch c)))
  end.

(** *** Requests against the upstream handler *)

Record Request : Type := {
  Method : string;
  URL : string;
  RequestURI : string;
  RemoteAddr : string;
  Header : list (string * string);
  Body : bytes
}.

(** [httptest.ResponseRecorder] once [ServeHTTP] has returned. *)
Record ResponseRecorder : Type := {
  Code : Z;
  RecBody : bytes
}.

(** [context.CancelFunc] of the one context [listenAndServe] creates. *)
Inductive CancelFunc : Type := cancelCtx.

Record tcpForwarder : Type := {
  Addr : string;
  UpstreamAddr : string;
  UpstreamHandler : Request -> ResponseRecorder;
  ReadTimeout : Z;
  cancel : option CancelFunc
}.

Definition newTCPForwarder (addr upstreamAddr : string)
    (upstreamHandler : Request -> ResponseRecorder) : tcpForwarder :=
  {| Addr := addr;
     UpstreamAddr := upstreamAddr;
     UpstreamHandler := upstreamHandler;
     ReadTimeout := defaultReadTimeout;
     cancel := None |}.

Definition StatusOK : Z := 200.
Definition StatusCreated : Z := 201.
Definition StatusPartialContent : Z := 206.
Definition MethodGet : string := "GET".
Definition MethodPut : string := "PUT".

(** [io.ErrClosedPipe]. *)
Definition io_ErrClosedPipe : error := errors_New "io: read/write on closed pipe".

(** What one run of [handleConn] does to the outside, in order.
    [UpstreamServe] is the call of [ServeHTTP]; the [Body] of its request
    is the stream that the pipe offers to the handler. *)
Inductive Event : Type :=
| UpstreamServe (request : Request)
| ConnWrite (data : bytes)
| ConnClose.

(** How a call of [handleConn] ends: it returns its error, or it never
    returns. *)
Inductive Outcome : Type :=
| Returns (err : option error)
| Blocks.

(** A call that returns. *)
Definition returns (r : list Event * option error) : list Event * Outcome :=
  (fst r, Returns (snd r)).

(** How the upstream handler reads [request.Body], the read end of the
    pipe, during [ServeHTTP]: up to the end of the body, or the first [n]
    bytes of it (all of it when it ends before), after which the handler
    answers without reading on, having closed the body or not. *)
Inductive BodyUse : Type :=
| ReadsToEnd
| ReadsFirst (n : nat) (closes : bool).

(** The request as the handler has read it when it answers. *)
Definition asRead (use : BodyUse) (request : Request) : Request :=
  {| Method := Method request; URL := URL request;
     RequestURI := RequestURI request; RemoteAddr := RemoteAddr request;
     Header := Header request;
     Body := match use with
             | ReadsToEnd => Body request
             | ReadsFirst n _ => firstn n (Body request)
             end |}.

(** Whether [ServeHTTP] returns.  The pipe reports the end of the body
    only once [requestBodyWriter] is closed.  The copy goroutine closes it
    after a copy without error; after a failed copy it sends the error on
    [errChan] at once and the writer is closed by the deferred calls
    alone, when [handleConn] returns.  So the handler returns when the
    stream holds the bytes it asks for, or when the copy ended without
    error; a handler that waits for more than a failed copy delivered
    waits for ever. *)
Definition handlerReturns (use : BodyUse) (body : bytes) (copyErr : option error)
  : bool :=
  match use, copyErr with
  | _, None => true
  | ReadsToEnd, Some _ => false
  | ReadsFirst n _, Some _ => Nat.leb n (List.length body)
  end.

(** What the copy goroutine sends on [errChan].  A write to the pipe
    returns once the handler has read all of it.  With bytes left that the
    handler does not read, the write fails with [io.ErrClosedPipe] when
    the handler closed the body and never returns otherwise.  When
    everything written was read, [io.Copy] ends with the error of its
    reads, or without error, and then the [nil] of
    [requestBodyWriter.Close()] is sent.  [None]: [io.Copy] never returns
    and nothing is sent. *)
Definition copySends (use : BodyUse) (body : bytes) (copyErr : option error)
  : option (option error) :=
  match use with
  | ReadsToEnd => Some copyErr
  | ReadsFirst n closes =>
      if Nat.ltb n (List.length body) then
        if closes then Some (Some io_ErrClosedPipe) else None
      else Some copyErr
  end.

(** The accepted connection and what the outside answers during one run
    of [handleConn]:
    - [netConn], the connection, and [remoteAddr], its
      [RemoteAddr().String()];
    - [Peak], which is [util.Peak] (not part of these sources): the
      peeked bytes and the error for a reader and a limit;
    - [newRequestErr], the error of [http.NewRequest] for a method and a
      URL;
    - [liveBytes], what the connection delivers to the copy goroutine
      after the peek, and [copyResult], the error that ends its reads
      ([nil] when they end with [io.EOF]);
    - [bodyUse], how the upstream handler reads the body of the
      forwarded request;
    - [writeResult], the error of [conn.Write]. *)
Record ConnWorld : Type := {
  netConn : Conn;
  remoteAddr : string;
  Peak : connTimeoutReadCloser -> nat -> bytes * option error;
  newRequestErr : string -> string -> option error;
  liveBytes : bytes;
  copyResult : option error;
  bodyUse : BodyUse;
  writeResult : bytes -> option error
}.

(** [&connTimeoutReadCloser{conn: conn, timeout: s.ReadTimeout}] and the
    peek [handleConn] starts with. *)
Definition peakResult (readTimeout : Z) (w : ConnWorld) : bytes * option error :=
  let connReadCloser :=
    {| conn := netConn w; timeout := readTimeout; lastErr := None |} in
  Peak w connReadCloser bufferSizeBytes.

Section Bridge.

(** [HeaderNoRedirect], a constant of package [server]. *)
Variable HeaderNoRedirect : string.
(** [rr.Result().Status] for a recorded status code. *)
Variable Status : Z -> string.

(** [func (s *tcpForwarder) handleHelp(conn net.Conn) error]. *)
Definition handleHelp (s : tcpForwarder) (w : ConnWorld) : list Event * option error :=
  let rawURL := (UpstreamAddr s ++ "/nc")%string in
  match newRequestErr w MethodGet rawURL with
  | Some err => ([], Some (Errorf_wrap "cannot create forwarding request" err))
  | None =>
      let request :=
        {| Method := MethodGet; URL := rawURL; RequestURI := "/nc";
           RemoteAddr := remoteAddr w;
           Header := [(HeaderNoRedirect, "1")]; Body := [] |} in
      let rr := UpstreamHandler s request in
      if negb (Code rr =? StatusOK)%Z then
        ([UpstreamServe request], Some (errors_New (Status (Code rr))))
      else
        ([UpstreamServe request; ConnWrite (RecBody rr)], writeResult w (RecBody rr))
  end.

(** [func (s *tcpForwarder) handleConn(conn net.Conn) error].  On the
    forward path [ServeHTTP] runs against the copy goroutine: the call
    returns only if the handler does, and with a status of 201 or 206 it
    then waits for what the goroutine sends on [errChan]. *)
Definition handleConn (s : tcpForwarder) (w : ConnWorld) : list Event * Outcome :=
  let (peaked, err) := peakResult (ReadTimeout s) w in
  match err with
  | Some err => ([], Returns (Some (Errorf_wrap "cannot peak" err)))
  | None =>
      if String.eqb (TrimSpace (string_of_bytes peaked)) "help" then
        returns (handleHelp s w)
      else
        let (path, offset) := extractPath peaked in
        let rawURL := (UpstreamAddr s ++ "/" ++ path)%string in
        match newRequestErr w MethodPut rawURL with
        | Some err =>
            ([], Returns (Some (Errorf_wrap "cannot create forwarding request" err)))
        | None =>
            let request :=
              {| Method := MethodPut; URL := rawURL; RequestURI := "/" ++ path;
                 RemoteAddr := remoteAddr w;
                 Header := [(HeaderNoRedirect, "1")];
                 Body := skipn offset peaked ++ liveBytes w |} in
            if negb (handlerReturns (bodyUse w) (Body request) (copyResult w)) then
              ([UpstreamServe request], Blocks)
            else
              let rr := UpstreamHandler s (asRead (bodyUse w) request) in
              if negb (Code rr =? StatusCreated)%Z
                 && negb (Code rr =? StatusPartialContent)%Z then
                ([UpstreamServe request],
                 Returns (Some (errors_New (Status (Code rr)))))
              else
                match copySends (bodyUse w) (Body request) (copyResult w) with
                | None => ([UpstreamServe request], Blocks)
                | Some (Some err) => ([UpstreamServe request], Returns (Some err))
                | Some None =>
                    ([UpstreamServe request; ConnWrite (RecBody rr)],
                     Returns (writeResult w (RecBody rr)))
                end
        end
  end.

(** The goroutine [listenAndServe] starts for an accepted connection:
    [handleConn], the error line when it failed, then the deferred
    [conn.Close()], which is not reached when [handleConn] does not
    return. *)
Definition serveConn (s : tcpForwarder) (w : ConnWorld) : list Event :=
  let (done, out) := handleConn s w in
  match out with
  | Returns (Some err) =>
      done ++ [ConnWrite (bytes_of_string (Error err ++ LF)); ConnClose]
  | Returns None => done ++ [ConnClose]
  | Blocks => done
  end.

End Bridge.

(** The data [handleConn] wrote to the socket. *)
Fixpoint written (evs : list Event) : list bytes :=
  match evs with
  | [] => []
  | ConnWrite data :: rest => data :: written rest
  | _ :: rest => written rest
  end.

(** The requests [handleConn] served through the upstream handler. *)
Fixpoint served (evs : list Event) : list Request :=
  match evs with
  | [] => []
  | UpstreamServe request :: rest => request :: served rest
  | _ :: rest => served rest
  end.

(** *** The life of one bridge: [listenAndServe] against [shutdown] *)

(** Where the goroutine that called [listenAndServe] stands. *)
Inductive ServePoint : Type :=
| NotCalled
| Bound
| Waiting
| Returned (err : option error).

Record Bridge : Type := {
  fwd : tcpForwarder;
  point : ServePoint;
  ctxDone : bool
}.

Definition withCancel (s : tcpForwarder) (f : option CancelFunc) : tcpForwarder :=
  {| Addr := Addr s; UpstreamAddr := UpstreamAddr s;
     UpstreamHandler := UpstreamHandler s; ReadTimeout := ReadTimeout s;
     cancel := f |}.

(** One step of [func (s *tcpForwarder) listenAndServe() error];
    [listenErr] is the error of [net.Listen].  From [NotCalled] the
    listener is bound (or the call returns the error); from [Bound], where
    the context exists and the accept loop runs, [s.cancel = cancel]; from
    [Waiting] the receive [<-ctx.Done()] goes through once the context is
    cancelled and the call returns [nil].  [None]: no step (blocked, or
    returned). *)
Definition listenAndServe (listenErr : option error) (b : Bridge) : option Bridge :=
  match point b with
  | NotCalled =>
      match listenErr with
      | Some err => Some {| fwd := fwd b; point := Returned (Some err); ctxDone := ctxDone b |}
      | None => Some {| fwd := fwd b; point := Bound; ctxDone := ctxDone b |}
      end
  | Bound =>
      Some {| fwd := withCancel (fwd b) (Some cancelCtx); point := Waiting;
              ctxDone := ctxDone b |}
  | Waiting =>
      if ctxDone b then Some {| fwd := fwd b; point := Returned None; ctxDone := true |}
      else None
  | Returned _ => None
  end.

(** [func (s *tcpForwarder) shutdown()]: [s.cancel()].  [None]: the call
    of a nil function value, a run-time panic. *)
Definition shutdown (b : Bridge) : option Bridge :=
  match cancel (fwd b) with
  | None => None
  | Some cancelCtx => Some {| fwd := fwd b; point := point b; ctxDone := true |}
  end.

(** A fresh bridge, nothing called yet. *)
Definition fresh (s : tcpForwarder) : Bridge :=
  {| fwd := s; point := NotCalled; ctxDone := false |}.

(** The interleavings of the goroutine in [listenAndServe] with callers
    of [shutdown]. *)
Inductive step : Bridge -> Bridge -> Prop :=
| step_serve : forall listenErr b b',
    listenAndServe listenErr b = Some b' -> step b b'
| step_shutdown : forall b b',
    shutdown b = Some b' -> step b b'.

Inductive reachable (b0 : Bridge) : Bridge -> Prop :=
| reach_start : reachable b0 b0
| reach_step : forall b b', reachable b0 b -> step b b' -> reachable b0 b'.

(** Where the cancel function stands at each point of [listenAndServe]. *)
Definition cancelInstalled (b : Bridge) : Prop :=
  match point b with
  | NotCalled | Bound | Returned (Some _) =>
      cancel (fwd b) = None /\ ctxDone b = false
  | Waiting => cancel (fwd b) = Some cancelCtx
  | Returned None => cancel (fwd b) = Some cancelCtx /\ ctxDone b = true
  end.

End Forwarder.

(** Sample connections and bridges, used to run the definitions. *)

Module ForwarderSamples.
Import GoStrings GoError Forwarder.

Definition sampleHandler (request : Request) : ResponseRecorder :=
  if String.eqb (Method request) MethodGet
  then {| Code := 200; RecBody := bytes_of_string "usage: nc host port" |}
  else {| Code := 201; RecBody := bytes_of_string "http://localhost/notes.txt" |}.

Definition sampleForwarder : tcpForwarder :=
  newTCPForwarder ":9999" "http://localhost:2586" sampleHandler.

Definition sampleStatus (code : Z) : string :=
  if (code =? 201)%Z then "201 Created" else "404 Not Found".

Definition quietConn : Conn :=
  {| deadlineResults := []; readResults := []; calls := [] |}.

Definition helpWorld : ConnWorld :=
  {| netConn := quietConn;
     remoteAddr := "10.0.0.1:4711";
     Peak := fun _ _ => (bytes_of_string (" help" ++ LF), None);
     newRequestErr := fun _ _ => None;
     liveBytes := [];
     copyResult := None;
     bodyUse := ReadsToEnd;
     writeResult := fun _ => None |}.

Definition putWorld : ConnWorld :=
  {| netConn := quietConn;
     remoteAddr := "10.0.0.1:4711";
     Peak := fun _ _ => (bytes_of_string ("pcopy:notes.txt" ++ LF ++ "hello"), None);
     newRequestErr := fun _ _ => None;
     liveBytes := bytes_of_string " world";
     copyResult := None;
     bodyUse := ReadsToEnd;
     writeResult := fun _ => None |}.

(** A connection whose first read runs into the deadline. *)
Definition idleConn : Conn :=
  {| deadlineResults := [];
     readResults := [(bytes_of_string "ab", Some (errorString "read tcp 10.0.0.1:4711: i/o timeout"))];
     calls := [] |}.

Definition idleReader : connTimeoutReadCloser :=
  {| conn := idleConn; timeout := defaultReadTimeout; lastErr := None |}.

End ForwarderSamples.

(** ** Package [cmd], the [join] command: discovery race and join handshake *)

Module Join.
Import GoStrings GoError.
Local Open Scope string_scope.

(** Modelled from the spec: [crypto.Key] and the certificate type are not
    part of these sources; the spec calls them a derived symmetric secret
    and a certificate with a transportable byte form, so both are kept as
    their bytes. *)
Definition Key : Type := bytes.
Definition Cert : Type := bytes.

(** Modelled from the spec: [server.Info] is declared outside these
    sources; the spec gives it as
    [{ ServerAddr: string, Salt: optional bytes, Cert: optional certificate }]. *)
Record Info : Type := {
  ServerAddr : string;
  Salt : option bytes;
  InfoCert : option Cert
}.

(** Modelled from the spec: [config.Config], declared outside these
    sources, is [{ ServerAddr: string, Key: optional Key }]. *)
Record Config : Type := {
  ConfServerAddr : string;
  ConfKey : option Key
}.

Record serverInfoResult : Type := {
  addr : string;
  info : option Info;
  err : option error
}.

(** The goroutine started per candidate address; [ServerInfo] is
    [pclient.ServerInfo()] for the client of that address. *)
Definition queryServer (ServerInfo : string -> option Info * option error)
    (serverAddr : string) : serverInfoResult :=
  let (serverInfo, err) := ServerInfo serverAddr in
  match err with
  | Some e => {| addr := serverAddr; info := None; err := Some e |}
  | None => {| addr := serverAddr; info := serverInfo; err := None |}
  end.

(** What the receive loop leaves behind. *)
Record received : Type := {
  gotInfo : option Info;
  errs : list serverInfoResult;
  notReceived : list serverInfoResult
}.

(** [for i := 0; i < len(serverAddrs); i++ { result := <-resultChan ... }]:
    [resultChan] lists the results in the order the channel hands them
    over, [n] is the number of rounds left.  [None]: a receive with no
    sender left, which never returns. *)
Fixpoint receive (n : nat) (resultChan errs : list serverInfoResult) : option received :=
  match n with
  | O => Some {| gotInfo := None; errs := errs; notReceived := resultChan |}
  | S n' =>
      match resultChan with
      | [] => None
      | result :: later =>
          match err result with
          | None => Some {| gotInfo := info result; errs := errs; notReceived := later |}
          | Some _ => receive n' later (errs ++ [result])
          end
      end
  end.

(** [err.err.Error()] for an element of [errs] (its [err] is never nil). *)
Definition errText (r : serverInfoResult) : string :=
  match err r with
  | Some e => Error e
  | None => ""
  end.

(** The message built when no query was successful. *)
Definition failureMessage (errs : list serverInfoResult) : string :=
  match errs with
  | [e] => "Cannot connect to " ++ addr e ++ ": " ++ errText e
  | _ =>
      let messages := map (fun e => "- " ++ addr e ++ ": " ++ errText e) errs in
      "Cannot connect to any of the servers we tried:" ++ LF ++ Join messages LF
  end.

(** What [readServerInfo] returns, with the results it never received. *)
Record lookup : Type := {
  returned : Info + error;
  ignored : list serverInfoResult
}.

(** [func readServerInfo(c, rawServerAddr)], which returns a [server.Info]
    or an error, from the receive loop on.  [None]: the call never returns. *)
Definition readServerInfo (serverAddrs : list string)
    (resultChan : list serverInfoResult) : option lookup :=
  match receive (List.length serverAddrs) resultChan [] with
  | None => None
  | Some r =>
      match gotInfo r with
      | None =>
          Some {| returned :=
                    inr (errorString ("failed." ++ LF ++ failureMessage (errs r)));
                  ignored := notReceived r |}
      | Some info => Some {| returned := inl info; ignored := notReceived r |}
      end
  end.

(** The channel hands over the results of the goroutines, one per
    candidate address, in some order. *)
Definition arrivalOf (ServerInfo : string -> option Info * option error)
    (serverAddrs : list string) (resultChan : list serverInfoResult) : Prop :=
  Permutation (map (queryServer ServerInfo) serverAddrs) resultChan.

(** *** [execJoin] *)

(** What [execJoin] does to the outside, in order. *)
Inductive Event : Type :=
| EvPrint (msg : string)
| EvNewClient (conf : Config)
| EvPrompt
| EvVerify (serverAddr : string) (cert : option Cert) (key : Key)
| EvWriteConfig (conf : Config) (file : string)
| EvWriteCert (file : string) (data : bytes)
| EvInstructions (configFile clipboard : string).

(** The command line, the collaborators of [execJoin] that are not part
    of these sources, and what the outside answers. *)
Record World : Type := {
  flagForce : bool;
  flagAuto : bool;
  flagQuiet : bool;
  args : list string;
  DefaultClipboard : string;
  EnvKey : string;
  FileFromName : string -> string;
  DefaultCertFile : string -> bool -> string;
  ExpandServerAddrsGuess : string -> list string;
  fileExists : string -> bool;
  Getenv : string -> string;
  NewClient : Config -> option error;
  ServerInfo : string -> option Info * option error;
  arrival : list serverInfoResult -> list serverInfoResult;
  Verify : string -> option Cert -> Key -> option error;
  DecodeKey : string -> Key + error;
  DeriveKey : bytes -> bytes -> Key;
  EncodeCert : Cert -> bytes + error;
  ReadPassword : bytes + error;
  WriteFile : Config -> string -> option error;
  ioutil_WriteFile : string -> bytes -> option error
}.

(** How a call ends. *)
Inductive Result (A : Type) : Type :=
| Ok (a : A)
| Fail (e : error)
| Blocked.
Arguments Ok {A} a.
Arguments Fail {A} e.
Arguments Blocked {A}.

(** A computation that logs events and may return early with an error. *)
Definition M (A : Type) : Type := list Event -> list Event * Result A.

Definition ret {A} (a : A) : M A := fun log => (log, Ok a).
Definition fail {A} (e : error) : M A := fun log => (log, Fail e).
Definition block {A} : M A := fun log => (log, Blocked).
Definition emit (ev : Event) : M unit := fun log => ((log ++ [ev])%list, Ok tt).

Definition bind {A B} (m : M A) (k : A -> M B) : M B :=
  fun log =>
    match m log with
    | (log', Ok a) => k a log'
    | (log', Fail e) => (log', Fail e)
    | (log', Blocked) => (log', Blocked)
    end.

Notation "x <- m ;; k" := (bind m (fun x => k))
  (at level 61, m at next level, right associativity).
Notation "m ;;; k" := (bind m (fun _ => k))
  (at level 61, right associativity).

(** [if err != nil { return err }] after a call that only yields an error. *)
Definition check (e : option error) : M unit :=
  match e with
  | Some e => fail e
  | None => ret tt
  end.

(** The same after a call that yields a value or an error. *)
Definition try {A} (r : A + error) : M A :=
  match r with
  | inl a => ret a
  | inr e => fail e
  end.

Definition run {A} (m : M A) : list Event * Result A := m [].

Section ExecJoin.
Variable w : World.

(** [readServerInfo] as [execJoin] calls it. *)
Definition readServerInfoM (rawServerAddr : string) : M Info :=
  emit (EvPrint ("Joining clipboard at " ++ rawServerAddr ++ " ... ")) ;;;
  let serverAddrs := ExpandServerAddrsGuess w rawServerAddr in
  match readServerInfo serverAddrs
          (arrival w (map (queryServer (ServerInfo w)) serverAddrs)) with
  | None => block
  | Some l => try (returned l)
  end.

(** [func readPassword(c)], which returns the password or an error. *)
Definition readPassword : M bytes :=
  emit EvPrompt ;;;
  try (ReadPassword w).

(** Lines 79 to 99: the key of a clipboard whose server sent a salt. *)
Definition resolveKey (info : Info) : M (option Key) :=
  match Salt info with
  | Some salt =>
      let envKey := Getenv w (EnvKey w) in
      if negb (String.eqb envKey "") then
        key <- try (DecodeKey w envKey) ;;
        ret (Some key)
      else
        password <- readPassword ;;
        let key := DeriveKey w password salt in
        emit (EvVerify (ServerAddr info) (InfoCert info) key) ;;;
        match Verify w (ServerAddr info) (InfoCert info) key with
        | Some e => fail (errorString ("failed to join clipboard: " ++ Error e))
        | None => ret (Some key)
        end
  | None => ret None
  end.

(** [func execJoin(c) error]. *)
Definition execJoin : M unit :=
  if Nat.ltb (List.length (args w)) 1 then
    fail (errors_New "missing server address, see --help for usage details")
  else if flagForce w && flagAuto w then
    fail (errors_New "cannot use both --auto and --force")
  else
    let rawServerAddr := nth 0 (args w) "" in
    let clipboard :=
      if Nat.ltb 1 (List.length (args w)) then nth 1 (args w) ""
      else DefaultClipboard w in
    let configFile := FileFromName w clipboard in
    if fileExists w configFile && negb (flagForce w) then
      fail (errorString ("config file " ++ configFile ++
        " exists, you may want to specify a different clipboard name, or use --force to override"))
    else
      info <- readServerInfoM rawServerAddr ;;
      let clientConf := {| ConfServerAddr := ServerAddr info; ConfKey := None |} in
      emit (EvNewClient clientConf) ;;;
      check (NewClient w clientConf) ;;;
      key <- resolveKey info ;;
      let conf := {| ConfServerAddr := ServerAddr info; ConfKey := key |} in
      emit (EvWriteConfig conf configFile) ;;;
      check (WriteFile w conf configFile) ;;;
      match InfoCert info with
      | Some cert =>
          let certFile := DefaultCertFile w configFile false in
          certsEncoded <- try (EncodeCert w cert) ;;
          emit (EvWriteCert certFile certsEncoded) ;;;
          check (ioutil_WriteFile w certFile certsEncoded)
      | None => ret tt
      end ;;;
      if negb (flagQuiet w) then emit (EvInstructions configFile clipboard)
      else ret tt.

End ExecJoin.

(** The configurations written during a run. *)
Fixpoint writtenConfigs (log : list Event) : list Config :=
  match log with
  | [] => []
  | EvWriteConfig conf _ :: rest => conf :: writtenConfigs rest
  | _ :: rest => writtenConfigs rest
  end.

(** The keys sent to the server for verification during a run. *)
Fixpoint verifiedKeys (log : list Event) : list (option Cert * Key) :=
  match log with
  | [] => []
  | EvVerify _ cert key :: rest => (cert, key) :: verifiedKeys rest
  | _ :: rest => verifiedKeys rest
  end.

(** The number of password prompts during a run. *)
Fixpoint prompts (log : list Event) : nat :=
  match log with
  | [] => 0
  | EvPrompt :: rest => S (prompts rest)
  | _ :: rest => prompts rest
  end.

End Join.

(** ** Notions the properties of the join are stated with *)

Module JoinTerms.
Import GoStrings GoError Join.
Local Open Scope string_scope.

(** A result that reports a failure. *)
Definition failed (r : serverInfoResult) : Prop := err r <> None.

(** An entry of the aggregate: a candidate address and the text of its
    error. *)
Definition entry : Type := (string * string)%type.

(** The aggregate as the spec words it: one line for a single candidate,
    otherwise a bulleted list of [address: error] pairs. *)
Definition aggregate (entries : list entry) : string :=
  match entries with
  | [(a, e)] => "Cannot connect to " ++ a ++ ": " ++ e
  | _ =>
      "Cannot connect to any of the servers we tried:" ++ LF ++
      Join (map (fun x : entry => "- " ++ fst x ++ ": " ++ snd x) entries) LF
  end.

(** The entry a candidate contributes when its query fails. *)
Definition entryOf (ServerInfo : string -> option Info * option error)
    (serverAddr : string) : entry :=
  (serverAddr,
   match snd (ServerInfo serverAddr) with
   | Some e => Error e
   | None => ""
   end).

(** The file [execJoin] writes the configuration to. *)
Definition configFileOf (w : World) : string :=
  FileFromName w
    (if Nat.ltb 1 (List.length (args w)) then nth 1 (args w) ""
     else DefaultClipboard w).

(** What [readServerInfo] returns in this world. *)
Definition lookupOf (w : World) : option lookup :=
  let serverAddrs := ExpandServerAddrsGuess w (nth 0 (args w) "") in
  readServerInfo serverAddrs (arrival w (map (queryServer (ServerInfo w)) serverAddrs)).

(** [execJoin] gets as far as the key: the command line is accepted, no
    configuration stands in the way, [readServerInfo] returned [info] and
    the client for its address was created. *)
Definition reachesKey (w : World) (info : Info) : Prop :=
  Nat.ltb (List.length (args w)) 1 = false /\
  flagForce w && flagAuto w = false /\
  fileExists w (configFileOf w) && negb (flagForce w) = false /\
  option_map returned (lookupOf w) = Some (inl info) /\
  NewClient w {| ConfServerAddr := ServerAddr info; ConfKey := None |} = None.

End JoinTerms.

(** Sample servers and command lines, used to run the definitions. *)

Module JoinSamples.
Import GoStrings GoError Join.
Local Open Scope string_scope.

Definition sampleInfo : Info :=
  {| ServerAddr := "https://nopaste.net:2586";
     Salt := Some (bytes_of_string "salt");
     InfoCert := None |}.

(** The server answers on its own port and refuses the other. *)
Definition sampleServerInfo (serverAddr : string) : option Info * option error :=
  if String.eqb serverAddr "https://nopaste.net:2586" then (Some sampleInfo, None)
  else (None, Some (errorString "connection refused")).

(** No server answers. *)
Definition deadServerInfo (serverAddr : string) : option Info * option error :=
  (None, Some (errorString "connection refused")).

Definition sampleAddrs : list string :=
  ["https://nopaste.net:2586"; "https://nopaste.net:443"].

(** [pcopy join nopaste.net work], password typed at the prompt, the
    slower candidate answering first. *)
Definition sampleWorld : World :=
  {| flagForce := false;
     flagAuto := false;
     flagQuiet := true;
     args := ["nopaste.net"; "work"];
     DefaultClipboard := "default";
     EnvKey := "PCOPY_KEY";
     FileFromName := fun name => "/etc/pcopy/" ++ name ++ ".conf";
     DefaultCertFile := fun file _ => file ++ ".crt";
     ExpandServerAddrsGuess := fun _ => sampleAddrs;
     fileExists := fun _ => false;
     Getenv := fun _ => "";
     NewClient := fun _ => None;
     ServerInfo := sampleServerInfo;
     arrival := fun results => rev results;
     Verify := fun _ _ key =>
       if list_eq_dec Byte.byte_eq_dec key (bytes_of_string "secret/salt") then None
       else Some (errorString "invalid key");
     DecodeKey := fun encoded => inl (bytes_of_string encoded);
     DeriveKey := fun password salt => (password ++ x2f :: salt)%list;
     EncodeCert := fun cert => inl cert;
     ReadPassword := inl (bytes_of_string "secret");
     WriteFile := fun _ _ => None;
     ioutil_WriteFile := fun _ _ => None |}.

(** The same with the key passed through the environment. *)
Definition envKeyWorld : World :=
  {| flagForce := flagForce sampleWorld;
     flagAuto := flagAuto sampleWorld;
     flagQuiet := flagQuiet sampleWorld;
     args := args sampleWorld;
     DefaultClipboard := DefaultClipboard sampleWorld;
     EnvKey := EnvKey sampleWorld;
     FileFromName := FileFromName sampleWorld;
     DefaultCertFile := DefaultCertFile sampleWorld;
     ExpandServerAddrsGuess := ExpandServerAddrsGuess sampleWorld;
     fileExists := fileExists sampleWorld;
     Getenv := fun name => if String.eqb name "PCOPY_KEY" then "c2VjcmV0" else "";
     NewClient := NewClient sampleWorld;
     ServerInfo := ServerInfo sampleWorld;
     arrival := arrival sampleWorld;
     Verify := Verify sampleWorld;
     DecodeKey := DecodeKey sampleWorld;
     DeriveKey := DeriveKey sampleWorld;
     EncodeCert := EncodeCert sampleWorld;
     ReadPassword := ReadPassword sampleWorld;
     WriteFile := WriteFile sampleWorld;
     ioutil_WriteFile := ioutil_WriteFile sampleWorld |}.

End JoinSamples.

(** ** server/tcp_forwarder.go: the body copy and runs of [listenAndServe] *)

Module ForwarderMore.
Import GoStrings GoError Forwarder.

(** The number of [conn.Close()] calls among events. *)
Fixpoint closes (evs : list Event) : nat :=
  match evs with
  | [] => 0
  | ConnClose :: rest => S (closes rest)
  | _ :: rest => closes rest
  end.

(** [io.Copy(requestBodyWriter, connReadCloser)], the part of the copy
    goroutine that reads the live connection: read until a read reports
    an error; the bytes of every read are passed on, [io.EOF] ends the
    copy without error and any other error is the error of the copy.  The
    writes into the pipe are taken to succeed (the handler reads the body
    to its end).  [rounds] bounds the number of reads; [None]: more reads
    would be needed. *)
Fixpoint copyFromConn (rounds : nat) (c : connTimeoutReadCloser)
  : option (connTimeoutReadCloser * (bytes * option error)) :=
  match rounds with
  | O => None
  | S rounds' =>
      let '(c', (data, err)) := Read c in
      match err with
      | None =>
          match copyFromConn rounds' c' with
          | Some (c'', (more, cerr)) => Some (c'', (data ++ more, cerr))
          | None => None
          end
      | Some e =>
          if is_EOF (Some e) then Some (c', (data, None))
          else Some (c', (data, Some e))
      end
  end.

(** The copy goroutine of [handleConn]: the payload of the peek, then the
    live connection; what it streams and what it sends on [errChan] (the
    error of the copy, or the [nil] of [requestBodyWriter.Close()]), the
    handler reading all that is written to the pipe. *)
Definition copyBody (rounds : nat) (payload : bytes) (c : connTimeoutReadCloser)
  : option (connTimeoutReadCloser * (bytes * option error)) :=
  match copyFromConn rounds c with
  | Some (c', (live, cerr)) => Some (c', (payload ++ live, cerr))
  | None => None
  end.

(** A connection that delivers [chunks] one read at a time and then
    answers [last] to the next read; every deadline is accepted. *)
Definition streaming (chunks : list bytes) (last : bytes * option error)
    (later : list (bytes * option error)) : Conn :=
  {| deadlineResults := [];
     readResults := map (fun d => (d, None)) chunks ++ last :: later;
     calls := [] |}.

(** Runs of the goroutine in [listenAndServe] alone, with no call of
    [shutdown]. *)
Inductive servesAlone (b0 : Bridge) : Bridge -> Prop :=
| alone_start : servesAlone b0 b0
| alone_step : forall listenErr b b',
    servesAlone b0 b -> listenAndServe listenErr b = Some b' -> servesAlone b0 b'.

(** More sample connections. *)

(** The peek fails: the peer reset the connection. *)
Definition resetWorld : ConnWorld :=
  {| netConn := ForwarderSamples.quietConn;
     remoteAddr := "10.0.0.1:4711";
     Peak := fun _ _ => ([], Some (errorString "connection reset by peer"));
     newRequestErr := fun _ _ => None;
     liveBytes := [];
     copyResult := None;
     bodyUse := ReadsToEnd;
     writeResult := fun _ => None |}.

(** A path that is no valid URL escape. *)
Definition badPathWorld : ConnWorld :=
  {| netConn := ForwarderSamples.quietConn;
     remoteAddr := "10.0.0.1:4711";
     Peak := fun _ _ => (bytes_of_string ("pcopy:%zz" ++ LF ++ "hello"), None);
     newRequestErr := fun _ url =>
       if Contains url "%zz" then Some (errorString "invalid URL escape") else None;
     liveBytes := [];
     copyResult := None;
     bodyUse := ReadsToEnd;
     writeResult := fun _ => None |}.

(** Plain content, no first line with a path. *)
Definition plainWorld : ConnWorld :=
  {| netConn := ForwarderSamples.quietConn;
     remoteAddr := "10.0.0.1:4711";
     Peak := fun _ _ => (bytes_of_string "hello", None);
     newRequestErr := fun _ _ => None;
     liveBytes := bytes_of_string " world";
     copyResult := None;
     bodyUse := ReadsToEnd;
     writeResult := fun _ => None |}.

(** The peer resets the connection in the middle of the stream, and the
    handler reads the body up to its end. *)
Definition stalledWorld : ConnWorld :=
  {| netConn := ForwarderSamples.quietConn;
     remoteAddr := "10.0.0.1:4711";
     Peak := fun _ _ => (bytes_of_string ("pcopy:notes.txt" ++ LF ++ "hello"), None);
     newRequestErr := fun _ _ => None;
     liveBytes := bytes_of_string " wor";
     copyResult := Some (errorString "connection reset by peer");
     bodyUse := ReadsToEnd;
     writeResult := fun _ => None |}.

(** The handler answers after the first two bytes of the body and
    leaves the rest unread, the body closed or not. *)
Definition hastyWorld (closes : bool) : ConnWorld :=
  {| netConn := ForwarderSamples.quietConn;
     remoteAddr := "10.0.0.1:4711";
     Peak := fun _ _ => (bytes_of_string ("pcopy:notes.txt" ++ LF ++ "hello"), None);
     newRequestErr := fun _ _ => None;
     liveBytes := bytes_of_string " world";
     copyResult := None;
     bodyUse := ReadsFirst 2 closes;
     writeResult := fun _ => None |}.

(** The help text is missing upstream. *)
Definition helplessForwarder : tcpForwarder :=
  newTCPForwarder ":9999" "http://localhost:2586"
    (fun _ => {| Code := 404; RecBody := bytes_of_string "not found" |}).

(** A reader whose connection refuses the deadline. *)
Definition refusingReader : connTimeoutReadCloser :=
  {| conn := {| deadlineResults := [Some (errorString "use of closed network connection")];
                readResults := [(bytes_of_string "ab", None)];
                calls := [] |};
     timeout := defaultReadTimeout;
     lastErr := None |}.

(** A reader on a connection that sends two chunks and then goes
    quiet. *)
Definition pausingReader : connTimeoutReadCloser :=
  {| conn := streaming [bytes_of_string "ab"; bytes_of_string "cd"]
               (bytes_of_string "e", Some (errorString "read tcp 10.0.0.1:4711: i/o timeout"))
               [(bytes_of_string "late", None)];
     timeout := defaultReadTimeout;
     lastErr := None |}.

End ForwarderMore.

(** ** Package [cmd], the [join] command: what a run leaves behind, and
    the instructions *)

Module JoinMore.
Import GoStrings GoError Join JoinTerms.
Local Open Scope string_scope.

(** The certificate files written during a run. *)
Fixpoint writtenCerts (log : list Event) : list (string * bytes) :=
  match log with
  | [] => []
  | EvWriteCert file data :: rest => (file, data) :: writtenCerts rest
  | _ :: rest => writtenCerts rest
  end.

(** The files configurations were written to during a run. *)
Fixpoint configFiles (log : list Event) : list string :=
  match log with
  | [] => []
  | EvWriteConfig _ file :: rest => file :: configFiles rest
  | _ :: rest => configFiles rest
  end.

(** The calls of [printInstructions] during a run. *)
Fixpoint instructions (log : list Event) : list (string * string) :=
  match log with
  | [] => []
  | EvInstructions configFile clipboard :: rest =>
      (configFile, clipboard) :: instructions rest
  | _ :: rest => instructions rest
  end.

(** The clients created during a run. *)
Fixpoint clients (log : list Event) : list Config :=
  match log with
  | [] => []
  | EvNewClient conf :: rest => conf :: clients rest
  | _ :: rest => clients rest
  end.

(** The clipboard name [execJoin] joins under. *)
Definition clipboardOf (w : World) : string :=
  if Nat.ltb 1 (List.length (args w)) then nth 1 (args w) ""
  else DefaultClipboard w.

(** The command line is accepted and no configuration stands in the
    way. *)
Definition accepted (w : World) : Prop :=
  Nat.ltb (List.length (args w)) 1 = false /\
  flagForce w && flagAuto w = false /\
  fileExists w (configFileOf w) && negb (flagForce w) = false.

(** The one-byte string ["\r"]. *)
Definition CR : string := String (ascii_of_byte x0d) EmptyString.

Definition warningPinned : string :=
  "Warning: The TLS certificate was self-signed and has been pinned." ++ LF.

Definition warningIntercepted : string :=
  "Future communication will be secure, but joining could have been intercepted." ++ LF.

Section Instructions.

(** [config.DefaultClipboard]. *)
Variable DefaultClipboard : string.
(** [util.CollapseHome], not part of these sources. *)
Variable CollapseHome : string -> string.
(** Whether [os.Stat("/usr/bin/pcp")] returned no error. *)
Variable pcpInstalled : bool.

(** [func printInstructions(c, configFile, clipboard, info)]: what it
    writes to [c.App.ErrWriter], one string per call. *)
Definition printInstructions (configFile clipboard : string) (info : Info)
  : list string :=
  let clipboardPrefix :=
    if negb (String.eqb clipboard DefaultClipboard) then " " ++ clipboard ++ ":"
    else "" in
  let joined :=
    if String.eqb clipboard DefaultClipboard then
      CR ++ "Successfully joined clipboard, config written to "
         ++ CollapseHome configFile ++ LF
    else
      CR ++ "Successfully joined clipboard as alias '" ++ clipboard
         ++ "', config written to " ++ CollapseHome configFile ++ LF in
  let warning :=
    match InfoCert info with
    | Some _ => [LF; warningPinned; warningIntercepted]
    | None => []
    end in
  let usage :=
    if pcpInstalled then
      "You may now use 'pcp" ++ clipboardPrefix ++ "' and 'ppaste" ++ clipboardPrefix
        ++ "'. See 'pcopy -h' for usage details." ++ LF
    else
      "You may now use 'pcopy copy" ++ clipboardPrefix ++ "' and 'pcopy paste"
        ++ clipboardPrefix ++ "'. See 'pcopy -h' for usage details." ++ LF in
  List.app (joined :: warning) [LF; usage].

End Instructions.

(** More sample worlds. *)

(** A server without password whose certificate is self-signed; a key is
    in the environment all the same. *)
Definition openInfo : Info :=
  {| ServerAddr := "https://nopaste.net:2586";
     Salt := None;
     InfoCert := Some (bytes_of_string "CERT") |}.

Definition openWorld : World :=
  {| flagForce := false;
     flagAuto := false;
     flagQuiet := false;
     args := ["nopaste.net"];
     DefaultClipboard := "default";
     EnvKey := "PCOPY_KEY";
     FileFromName := fun name => "/etc/pcopy/" ++ name ++ ".conf";
     DefaultCertFile := fun file _ => file ++ ".crt";
     ExpandServerAddrsGuess := fun _ => JoinSamples.sampleAddrs;
     fileExists := fun _ => false;
     Getenv := fun _ => "c2VjcmV0";
     NewClient := fun _ => None;
     ServerInfo := fun serverAddr =>
       if String.eqb serverAddr "https://nopaste.net:2586" then (Some openInfo, None)
       else (None, Some (errorString "connection refused"));
     arrival := fun results => results;
     Verify := fun _ _ _ => Some (errorString "invalid key");
     DecodeKey := fun encoded => inl (bytes_of_string encoded);
     DeriveKey := fun password salt => (password ++ x2f :: salt)%list;
     EncodeCert := fun cert => inl (bytes_of_string "PEM" ++ cert)%list;
     ReadPassword := inr (errorString "no terminal");
     WriteFile := fun _ _ => None;
     ioutil_WriteFile := fun _ _ => None |}.

(** The sample world with another command line and other files. *)
Definition withCommandLine (w : World) (force auto : bool) (arguments : list string)
    (exists_ : string -> bool) : World :=
  {| flagForce := force;
     flagAuto := auto;
     flagQuiet := flagQuiet w;
     args := arguments;
     DefaultClipboard := DefaultClipboard w;
     EnvKey := EnvKey w;
     FileFromName := FileFromName w;
     DefaultCertFile := DefaultCertFile w;
     ExpandServerAddrsGuess := ExpandServerAddrsGuess w;
     fileExists := exists_;
     Getenv := Getenv w;
     NewClient := NewClient w;
     ServerInfo := ServerInfo w;
     arrival := arrival w;
     Verify := Verify w;
     DecodeKey := DecodeKey w;
     DeriveKey := DeriveKey w;
     EncodeCert := EncodeCert w;
     ReadPassword := ReadPassword w;
     WriteFile := WriteFile w;
     ioutil_WriteFile := ioutil_WriteFile w |}.

(** The sample world with no server answering. *)
Definition deadWorld : World :=
  {| flagForce := false;
     flagAuto := false;
     flagQuiet := false;
     args := ["nopaste.net"];
     DefaultClipboard := "default";
     EnvKey := "PCOPY_KEY";
     FileFromName := fun name => "/etc/pcopy/" ++ name ++ ".conf";
     DefaultCertFile := fun file _ => file ++ ".crt";
     ExpandServerAddrsGuess := fun _ => JoinSamples.sampleAddrs;
     fileExists := fun _ => false;
     Getenv := fun _ => "";
     NewClient := fun _ => None;
     ServerInfo := JoinSamples.deadServerInfo;
     arrival := fun results => results;
     Verify := fun _ _ _ => None;
     DecodeKey := fun encoded => inl (bytes_of_string encoded);
     DeriveKey := fun password salt => (password ++ x2f :: salt)%list;
     EncodeCert := fun cert => inl cert;
     ReadPassword := inl (bytes_of_string "secret");
     WriteFile := fun _ _ => None;
     ioutil_WriteFile := fun _ _ => None |}.

End JoinMore.

(** * Properties *)

(** ** Facts about the string helpers *)

Module GoStringsFacts.
Import GoStrings.
Local Open Scope string_scope.

Lemma string_of_bytes_app (a b : bytes) :
  string_of_bytes (a ++ b) = string_of_bytes a ++ string_of_bytes b.
Proof.
  unfold string_of_bytes, string_of_list_byte.
  induction a as [|x a IH]; simpl; [reflexivity | now rewrite IH].
Qed.

Lemma string_of_bytes_length (a : bytes) :
  String.length (string_of_bytes a) = List.length a.
Proof.
  unfold string_of_bytes, string_of_list_byte.
  induction a as [|x a IH]; simpl; [reflexivity | now rewrite IH].
Qed.

Lemma bytes_of_string_of_bytes (a : bytes) :
  bytes_of_string (string_of_bytes a) = a.
Proof. apply list_byte_of_string_of_list_byte. Qed.

Lemma string_of_bytes_of_string (s : string) :
  string_of_bytes (bytes_of_string s) = s.
Proof. apply string_of_list_byte_of_string. Qed.

Lemma append_length (a b : string) :
  String.length (a ++ b) = String.length a + String.length b.
Proof. induction a as [|c a IH]; simpl; [reflexivity | now rewrite IH]. Qed.

Lemma append_assoc (a b c : string) : (a ++ b) ++ c = a ++ (b ++ c).
Proof. induction a as [|x a IH]; simpl; [reflexivity | now rewrite IH]. Qed.

Lemma drop_app_length (a b : string) : drop (String.length a) (a ++ b) = b.
Proof. induction a as [|c a IH]; simpl; [now destruct b | exact IH]. Qed.

Lemma take_app_length (a b : string) : take (String.length a) (a ++ b) = a.
Proof. induction a as [|c a IH]; simpl; [reflexivity | now rewrite IH]. Qed.

(** A string that has the prefix is the prefix followed by the rest. *)
Lemma HasPrefix_split (s p : string) :
  HasPrefix s p = true -> s = p ++ drop (String.length p) s.
Proof.
  unfold HasPrefix. revert s.
  induction p as [|c p IH]; intros s H; simpl in *.
  - now destruct s.
  - destruct s as [|d s]; [discriminate|].
    simpl in H. destruct (ascii_dec c d) as [->|]; [|discriminate].
    simpl. f_equal. now apply IH.
Qed.

Lemma HasPrefix_app (p t : string) : HasPrefix (p ++ t) p = true.
Proof.
  unfold HasPrefix. induction p as [|c p IH]; simpl; [now destruct t|].
  destruct (ascii_dec c c); [exact IH | congruence].
Qed.

(** The prefix test only looks at the front of the string. *)
Lemma HasPrefix_extend (s p r : string) :
  HasPrefix s p = true -> HasPrefix (s ++ r) p = true.
Proof.
  intros H. rewrite (HasPrefix_split _ _ H), append_assoc. apply HasPrefix_app.
Qed.

Lemma TrimPrefix_app (p t : string) : TrimPrefix (p ++ t) p = t.
Proof. unfold TrimPrefix. now rewrite HasPrefix_app, drop_app_length. Qed.

Lemma TrimSuffix_LF (t : string) : TrimSuffix (t ++ LF) LF = t.
Proof.
  unfold TrimSuffix, HasSuffix.
  rewrite append_length. simpl String.length.
  replace (String.length t + 1 - 1) with (String.length t) by lia.
  rewrite drop_app_length, take_app_length.
  replace (Nat.leb 1 (String.length t + 1)) with true
    by (symmetry; apply Nat.leb_le; lia).
  reflexivity.
Qed.

(** When [a ++ "\n"] starts with a prefix free of newlines, [a] starts
    with it too. *)
Lemma prefix_before_LF (p a t : string) :
  ~ In x0a (bytes_of_string p) ->
  a ++ LF = p ++ t ->
  exists t', a = p ++ t' /\ t = t' ++ LF.
Proof.
  revert a. induction p as [|c p IH]; intros a Hp H; simpl in *.
  - exists a. now split.
  - destruct a as [|d a]; simpl in H.
    + exfalso. apply Hp. left. unfold LF in H.
      injection H as Hc _. rewrite <- Hc. apply byte_of_ascii_of_byte.
    + injection H as -> H.
      destruct (IH a) as [t' [-> ->]]; auto.
      exists t'. now split.
Qed.

(** *** [TrimSpace] *)

Example TrimSpace_line : TrimSpace (" help" ++ LF) = "help".
Proof. reflexivity. Qed.

Example TrimSpace_inner : TrimSpace "  pcopy: a b  " = "pcopy: a b".
Proof. reflexivity. Qed.

Example TrimSpace_blank : TrimSpace ("  " ++ LF) = "".
Proof. reflexivity. Qed.

(** A no-break space (U+00A0) in front and a line separator (U+2028)
    behind are white space too. *)
Example TrimSpace_unicode :
  TrimSpace (string_of_bytes ([xc2; xa0] ++ bytes_of_string "help" ++ [xe2; x80; xa8]))
  = "help".
Proof. reflexivity. Qed.

Example Contains_timeout :
  Contains "read tcp 10.0.0.1:4711: i/o timeout" "i/o timeout" = true.
Proof. reflexivity. Qed.

Example Contains_reset : Contains "connection reset by peer" "i/o timeout" = false.
Proof. reflexivity. Qed.

Lemma spaceWidth_asciiSpace (b : byte) (t : bytes) :
  asciiSpace b = true -> spaceWidth (b :: t) = 1.
Proof. destruct b; intros H; try discriminate H; reflexivity. Qed.

Lemma spaceWidthLast_asciiSpace (b : byte) (t : bytes) :
  asciiSpace b = true -> spaceWidthLast (b :: t) = 1.
Proof. destruct b; intros H; try discriminate H; reflexivity. Qed.

(** Leading one-byte white space is stripped up to the first byte that
    starts no white-space rune. *)
Lemma trimWhile_spaces (width : bytes -> nat) (ws rest : bytes) (rounds : nat) :
  (forall b t, asciiSpace b = true -> width (b :: t) = 1) ->
  Forall (fun b => asciiSpace b = true) ws ->
  List.length ws <= rounds ->
  width rest = 0 ->
  trimWhile width rounds (ws ++ rest)%list = rest.
Proof.
  intros Hw F. revert rounds.
  induction F as [|b ws Hb F IH]; intros rounds L Hrest; simpl in *.
  - destruct rounds; simpl; [reflexivity | now rewrite Hrest].
  - destruct rounds as [|rounds]; [lia|]. simpl.
    rewrite (Hw b _ Hb). simpl. apply IH; [lia | exact Hrest].
Qed.

(** ["help"] with one-byte white space around it trims to ["help"]. *)
Lemma TrimSpace_help (before after : bytes) :
  Forall (fun b => asciiSpace b = true) before ->
  Forall (fun b => asciiSpace b = true) after ->
  TrimSpace (string_of_bytes (before ++ bytes_of_string "help" ++ after)) = "help".
Proof.
  intros Fb Fa. unfold TrimSpace.
  rewrite bytes_of_string_of_bytes.
  rewrite (trimWhile_spaces spaceWidth before _ _ spaceWidth_asciiSpace Fb);
    [| rewrite length_app; lia | reflexivity].
  rewrite rev_app_distr.
  rewrite (trimWhile_spaces spaceWidthLast (rev after) _ _ spaceWidthLast_asciiSpace);
    [reflexivity | now apply Forall_rev | | reflexivity].
  rewrite length_rev, length_app. lia.
Qed.

End GoStringsFacts.

(** ** The forwarder *)

Module ForwarderSpec.
Import GoStrings GoError Forwarder GoStringsFacts.
Local Open Scope string_scope.

(** [ReadBytes] stops right after the first delimiter. *)
Lemma ReadBytes_line (delim : byte) (line rest : bytes) :
  ~ In delim line ->
  ReadBytes delim (line ++ delim :: rest)%list = ((line ++ [delim])%list, None).
Proof.
  induction line as [|b line IH]; intros H; simpl.
  - now rewrite (@Byte.byte_dec_lb delim delim eq_refl).
  - destruct (Byte.eqb b delim) eqn:E.
    + apply Byte.byte_dec_bl in E. exfalso. apply H. now left.
    + rewrite IH; [reflexivity|]. intros X. apply H. now right.
Qed.

(** Without a delimiter [ReadBytes] runs into the end of the buffer. *)
Lemma ReadBytes_no_delim (delim : byte) (buf : bytes) :
  ~ In delim buf -> ReadBytes delim buf = (buf, Some io_EOF).
Proof.
  induction buf as [|b buf IH]; intros H; simpl; [reflexivity|].
  destruct (Byte.eqb b delim) eqn:E.
  - apply Byte.byte_dec_bl in E. exfalso. apply H. now left.
  - rewrite IH; [reflexivity|]. intros X. apply H. now right.
Qed.

(** What [ReadBytes] returns is the front of the buffer. *)
Lemma ReadBytes_front (delim : byte) (buf : bytes) :
  exists rest, buf = (fst (ReadBytes delim buf) ++ rest)%list.
Proof.
  induction buf as [|b buf [rest IH]]; simpl.
  - now exists [].
  - destruct (Byte.eqb b delim).
    + now exists buf.
    + destruct (ReadBytes delim buf) as [line err]; simpl in *.
      exists rest. now rewrite <- IH.
Qed.

(** Without the prefix the whole peek is payload, newline or not. *)
Lemma extractPath_no_prefix (peaked : bytes) :
  HasPrefix (string_of_bytes peaked) "pcopy:" = false ->
  extractPath peaked = ("", 0).
Proof.
  intros H. unfold extractPath, ReadString.
  destruct (ReadBytes_front x0a peaked) as [rest Hrest].
  destruct (ReadBytes x0a peaked) as [line err]; simpl in Hrest.
  destruct err; [reflexivity|].
  destruct (HasPrefix (string_of_bytes line) "pcopy:") eqn:E; [|reflexivity].
  rewrite Hrest, string_of_bytes_app in H.
  now rewrite (HasPrefix_extend _ _ _ E) in H.
Qed.

(** Without a newline in the peek there is no first line to read. *)
Lemma extractPath_no_newline (peaked : bytes) :
  ~ In x0a peaked -> extractPath peaked = ("", 0).
Proof.
  intros H. unfold extractPath, ReadString.
  now rewrite (ReadBytes_no_delim _ _ H).
Qed.

(** A first line that carries the prefix gives the path and the offset. *)
Lemma extractPath_first_line (line rest : bytes) :
  ~ In x0a line ->
  HasPrefix (string_of_bytes (line ++ [x0a])) "pcopy:" = true ->
  string_of_bytes line = "pcopy:" ++ drop 6 (string_of_bytes line) /\
  extractPath (line ++ x0a :: rest) =
    (drop 6 (string_of_bytes line), List.length (line ++ [x0a])).
Proof.
  intros Hnl Hpre. unfold extractPath, ReadString.
  rewrite (ReadBytes_line _ _ _ Hnl), Hpre. simpl negb. cbv iota.
  pose proof (HasPrefix_split _ _ Hpre) as Hs.
  rewrite string_of_bytes_app in Hs.
  change (string_of_bytes [x0a]) with LF in Hs.
  destruct (prefix_before_LF "pcopy:" _ _ ltac:(vm_compute; intuition discriminate) Hs)
    as [t' [Hline Ht]].
  assert (Hd : drop 6 (string_of_bytes line) = t') by (rewrite Hline; reflexivity).
  rewrite Hd. split; [exact Hline|].
  rewrite string_of_bytes_app. change (string_of_bytes [x0a]) with LF.
  rewrite append_length, string_of_bytes_length, length_app.
  rewrite Hline, append_assoc, TrimPrefix_app, TrimSuffix_LF.
  reflexivity.
Qed.

(** C3.  [extractPath] classifies the peek by its first line.  When the
    peek has a first line (the bytes [line] up to the first newline, and
    that newline) which begins with ["pcopy:"], the path is what follows
    the prefix on that line, without the newline, the offset is the length
    of the whole line, and the payload is what comes after the line.  When
    the peek does not begin with ["pcopy:"], the path is empty, the offset
    is 0 and the whole peek is payload.  In particular
    ["pcopy:notes.txt\n<payload>"] gives the path ["notes.txt"] and the
    payload after the first newline. *)
Theorem extractPath_classifies (peaked : bytes) :
  (forall line rest : bytes,
      peaked = (line ++ x0a :: rest)%list ->
      ~ In x0a line ->
      HasPrefix (string_of_bytes (line ++ [x0a])) "pcopy:" = true ->
      string_of_bytes line = "pcopy:" ++ fst (extractPath peaked) /\
      snd (extractPath peaked) = List.length (line ++ [x0a]) /\
      payloadOf peaked = rest) /\
  (HasPrefix (string_of_bytes peaked) "pcopy:" = false ->
      extractPath peaked = ("", 0) /\ payloadOf peaked = peaked) /\
  (forall payload,
      peaked = (bytes_of_string ("pcopy:notes.txt" ++ LF) ++ payload)%list ->
      fst (extractPath peaked) = "notes.txt" /\ payloadOf peaked = payload).
Proof.
  split; [|split].
  - intros line rest -> Hnl Hpre.
    destruct (extractPath_first_line line rest Hnl Hpre) as [Hline Hex].
    unfold payloadOf. rewrite Hex. simpl fst. simpl snd.
    repeat split; [exact Hline|].
    replace (line ++ x0a :: rest)%list with ((line ++ [x0a]) ++ rest)%list
      by (rewrite <- app_assoc; reflexivity).
    rewrite skipn_app, skipn_all, Nat.sub_diag. reflexivity.
  - intros H. unfold payloadOf.
    rewrite (extractPath_no_prefix _ H). now split.
  - intros payload ->. unfold payloadOf. split; reflexivity.
Qed.

Lemma extractPath_classifies_witness :
  let peaked := bytes_of_string ("pcopy:a" ++ LF ++ "xy") in
  (string_of_bytes (bytes_of_string "pcopy:a") = "pcopy:" ++ fst (extractPath peaked) /\
   snd (extractPath peaked) = 8 /\
   payloadOf peaked = bytes_of_string "xy") /\
  (extractPath (bytes_of_string "hello") = ("", 0) /\
   payloadOf (bytes_of_string "hello") = bytes_of_string "hello").
Proof.
  split.
  - apply (proj1 (extractPath_classifies (bytes_of_string ("pcopy:a" ++ LF ++ "xy")))
             (bytes_of_string "pcopy:a") (bytes_of_string "xy")).
    + reflexivity.
    + vm_compute. intuition discriminate.
    + reflexivity.
  - apply (proj1 (proj2 (extractPath_classifies (bytes_of_string "hello")))).
    reflexivity.
Defined.

(** C9.  A peek that begins with ["pcopy:"] but holds no newline gives
    the empty path and offset 0: all of it, the prefix included, is
    payload. *)
Theorem extractPath_prefix_without_newline (peaked : bytes) :
  HasPrefix (string_of_bytes peaked) "pcopy:" = true ->
  ~ In x0a peaked ->
  extractPath peaked = ("", 0) /\ payloadOf peaked = peaked.
Proof.
  intros _ Hnl. unfold payloadOf.
  rewrite (extractPath_no_newline _ Hnl). now split.
Qed.

Lemma extractPath_prefix_without_newline_witness :
  extractPath (bytes_of_string "pcopy:notes.txt") = ("", 0) /\
  payloadOf (bytes_of_string "pcopy:notes.txt") = bytes_of_string "pcopy:notes.txt".
Proof.
  apply (extractPath_prefix_without_newline (bytes_of_string "pcopy:notes.txt")).
  - reflexivity.
  - vm_compute. intuition discriminate.
Defined.

(** *** Help and forward paths *)

Section BridgeSpec.
Variable HeaderNoRedirect : string.
Variable Status : Z -> string.
Variable s : tcpForwarder.
Variable w : ConnWorld.

(** The request [handleHelp] builds. *)
Let helpRequest : Request :=
  {| Method := MethodGet; URL := UpstreamAddr s ++ "/nc"; RequestURI := "/nc";
     RemoteAddr := remoteAddr w; Header := [(HeaderNoRedirect, "1")]; Body := [] |}.

(** [handleHelp] serves at most one request, the GET of [/nc]. *)
Lemma handleHelp_served :
  served (fst (handleHelp HeaderNoRedirect Status s w)) =
    match newRequestErr w MethodGet (UpstreamAddr s ++ "/nc") with
    | Some _ => []
    | None => [helpRequest]
    end.
Proof.
  unfold handleHelp.
  destruct (newRequestErr w MethodGet (UpstreamAddr s ++ "/nc")); [reflexivity|].
  fold helpRequest.
  destruct (negb (Code (UpstreamHandler s helpRequest) =? StatusOK)%Z); reflexivity.
Qed.

(** C4.  When the peek, trimmed of surrounding white space, is ["help"],
    [handleConn] is [handleHelp], and returns what it returns: the only
    request it can serve is the GET of [/nc], and it serves no PUT. *)
Theorem handleConn_help (peaked : bytes) :
  peakResult (ReadTimeout s) w = (peaked, None) ->
  TrimSpace (string_of_bytes peaked) = "help" ->
  handleConn HeaderNoRedirect Status s w
    = returns (handleHelp HeaderNoRedirect Status s w) /\
  Forall (fun request =>
            Method request = MethodGet /\ RequestURI request = "/nc" /\
            URL request = UpstreamAddr s ++ "/nc" /\ Method request <> MethodPut)
         (served (fst (handleConn HeaderNoRedirect Status s w))) /\
  (newRequestErr w MethodGet (UpstreamAddr s ++ "/nc") = None ->
   List.length (served (fst (handleConn HeaderNoRedirect Status s w))) = 1).
Proof.
  intros Hpeak Htrim.
  assert (E : handleConn HeaderNoRedirect Status s w
              = returns (handleHelp HeaderNoRedirect Status s w)).
  { unfold handleConn. rewrite Hpeak, Htrim. reflexivity. }
  rewrite E. unfold returns. cbn [fst]. rewrite handleHelp_served.
  split; [reflexivity|]. split.
  - destruct (newRequestErr w MethodGet (UpstreamAddr s ++ "/nc")); constructor.
    + repeat split. discriminate.
    + constructor.
  - intros ->. reflexivity.
Qed.

(** The request [handleConn] forwards for a peek. *)
Let putRequest (peaked : bytes) : Request :=
  let (path, offset) := extractPath peaked in
  {| Method := MethodPut; URL := UpstreamAddr s ++ "/" ++ path;
     RequestURI := "/" ++ path; RemoteAddr := remoteAddr w;
     Header := [(HeaderNoRedirect, "1")];
     Body := (skipn offset peaked ++ liveBytes w)%list |}.

(** What [handleConn] does on the forward path, by what the handler
    reads, the recorded status and what the copy goroutine sends. *)
Lemma handleConn_forward (peaked : bytes) :
  peakResult (ReadTimeout s) w = (peaked, None) ->
  String.eqb (TrimSpace (string_of_bytes peaked)) "help" = false ->
  newRequestErr w MethodPut (URL (putRequest peaked)) = None ->
  let request := putRequest peaked in
  let rr := UpstreamHandler s (asRead (bodyUse w) request) in
  handleConn HeaderNoRedirect Status s w =
    if negb (handlerReturns (bodyUse w) (Body request) (copyResult w)) then
      ([UpstreamServe request], Blocks)
    else if negb (Code rr =? StatusCreated)%Z
            && negb (Code rr =? StatusPartialContent)%Z then
      ([UpstreamServe request], Returns (Some (errors_New (Status (Code rr)))))
    else
      match copySends (bodyUse w) (Body request) (copyResult w) with
      | None => ([UpstreamServe request], Blocks)
      | Some (Some err) => ([UpstreamServe request], Returns (Some err))
      | Some None =>
          ([UpstreamServe request; ConnWrite (RecBody rr)],
           Returns (writeResult w (RecBody rr)))
      end.
Proof.
  intros Hpeak Htrim Hnew. unfold handleConn. rewrite Hpeak, Htrim.
  unfold putRequest in *. destruct (extractPath peaked) as [path offset].
  cbn [URL] in Hnew. rewrite Hnew. reflexivity.
Qed.

(** The copy goroutine sends [nil] only after a copy without error, and
    then the handler has returned. *)
Lemma copySends_nil (use : BodyUse) (body : bytes) (copyErr : option error) :
  copySends use body copyErr = Some None ->
  copyErr = None /\ handlerReturns use body copyErr = true.
Proof.
  unfold copySends. destruct use as [|n closes].
  - intros H. injection H as ->. split; reflexivity.
  - destruct (Nat.ltb n (List.length body)); [destruct closes; discriminate|].
    intros H. injection H as ->. split; reflexivity.
Qed.

(** C5.  On the forward path [handleConn] calls the handler once, with a
    PUT.  The recorded body is written to the socket exactly when the
    status is 201 or 206 and the copy goroutine reported the end of the
    copy without error; an error that ends the reads of the copy rules
    that out.  Once the handler has returned: with another status
    [handleConn] returns the status text as its error and writes nothing,
    so the only thing the connection gets is the error line; with a good
    status an error sent by the copy goroutine is returned before any
    write.  [handleConn] does not return, and writes nothing, when the
    handler waits for more of the body than a failed copy delivered, or
    when the status is good and the copy is stuck in a write that the
    handler does not read. *)
Theorem handleConn_response (peaked : bytes) :
  peakResult (ReadTimeout s) w = (peaked, None) ->
  String.eqb (TrimSpace (string_of_bytes peaked)) "help" = false ->
  newRequestErr w MethodPut (UpstreamAddr s ++ "/" ++ fst (extractPath peaked)) = None ->
  exists request,
    served (fst (handleConn HeaderNoRedirect Status s w)) = [request] /\
    Method request = MethodPut /\
    let answered := handlerReturns (bodyUse w) (Body request) (copyResult w) in
    let sent := copySends (bodyUse w) (Body request) (copyResult w) in
    let rr := UpstreamHandler s (asRead (bodyUse w) request) in
    let good := (Code rr = StatusCreated \/ Code rr = StatusPartialContent) in
    (written (fst (handleConn HeaderNoRedirect Status s w)) = [RecBody rr]
       <-> good /\ sent = Some None) /\
    (written (fst (handleConn HeaderNoRedirect Status s w)) = [RecBody rr] ->
       copyResult w = None /\
       snd (handleConn HeaderNoRedirect Status s w)
         = Returns (writeResult w (RecBody rr))) /\
    (answered = true -> ~ good ->
       snd (handleConn HeaderNoRedirect Status s w)
         = Returns (Some (errors_New (Status (Code rr)))) /\
       written (fst (handleConn HeaderNoRedirect Status s w)) = [] /\
       written (serveConn HeaderNoRedirect Status s w)
         = [bytes_of_string (Status (Code rr) ++ LF)]) /\
    (forall err, copyResult w = Some err \/ sent = Some (Some err) ->
       written (fst (handleConn HeaderNoRedirect Status s w)) = [] /\
       (answered = true -> good -> sent = Some (Some err) ->
        snd (handleConn HeaderNoRedirect Status s w) = Returns (Some err))) /\
    (snd (handleConn HeaderNoRedirect Status s w) = Blocks
       <-> answered = false \/ (good /\ sent = None)) /\
    (snd (handleConn HeaderNoRedirect Status s w) = Blocks ->
       serveConn HeaderNoRedirect Status s w = [UpstreamServe request]).
Proof.
  intros Hpeak Htrim Hnew.
  assert (Hurl : newRequestErr w MethodPut (URL (putRequest peaked)) = None).
  { unfold putRequest. destruct (extractPath peaked); exact Hnew. }
  pose proof (handleConn_forward peaked Hpeak Htrim Hurl) as E. cbv zeta in E.
  exists (putRequest peaked).
  assert (Hm : Method (putRequest peaked) = MethodPut).
  { unfold putRequest. now destruct (extractPath peaked). }
  pose proof (copySends_nil (bodyUse w) (Body (putRequest peaked)) (copyResult w))
    as Hnil.
  unfold serveConn. rewrite E. clear E. cbv zeta.
  set (rr := UpstreamHandler s (asRead (bodyUse w) (putRequest peaked))).
  destruct (handlerReturns (bodyUse w) (Body (putRequest peaked)) (copyResult w))
    eqn:Hans;
    destruct (Z.eqb_spec (Code rr) StatusCreated) as [Hc|Hc];
    destruct (Z.eqb_spec (Code rr) StatusPartialContent) as [Hp|Hp];
    destruct (copySends (bodyUse w) (Body (putRequest peaked)) (copyResult w))
      as [[serr|]|] eqn:Hsent;
    cbn [negb andb fst snd served written app Error errors_New];
    (split; [reflexivity|]); (split; [exact Hm|]);
    repeat match goal with |- _ /\ _ => split end;
    try (destruct (Hnil eq_refl) as [Hcopy _]);
    intuition (congruence || discriminate || auto).
Qed.

End BridgeSpec.

Lemma handleConn_help_witness :
  let run := handleConn "X-No-Redirect" ForwarderSamples.sampleStatus
               ForwarderSamples.sampleForwarder ForwarderSamples.helpWorld in
  run = returns (handleHelp "X-No-Redirect" ForwarderSamples.sampleStatus
                   ForwarderSamples.sampleForwarder ForwarderSamples.helpWorld) /\
  Forall (fun request =>
            Method request = MethodGet /\ RequestURI request = "/nc" /\
            URL request = UpstreamAddr ForwarderSamples.sampleForwarder ++ "/nc" /\
            Method request <> MethodPut)
         (served (fst run)) /\
  (newRequestErr ForwarderSamples.helpWorld MethodGet
     (UpstreamAddr ForwarderSamples.sampleForwarder ++ "/nc") = None ->
   List.length (served (fst run)) = 1).
Proof.
  apply (handleConn_help "X-No-Redirect" ForwarderSamples.sampleStatus
           ForwarderSamples.sampleForwarder ForwarderSamples.helpWorld
           (bytes_of_string (" help" ++ LF))); reflexivity.
Defined.

Lemma handleConn_response_witness :
  let run := handleConn "X-No-Redirect" ForwarderSamples.sampleStatus
               ForwarderSamples.sampleForwarder ForwarderSamples.putWorld in
  let w := ForwarderSamples.putWorld in
  exists request,
    served (fst run) = [request] /\
    Method request = MethodPut /\
    let answered := handlerReturns (bodyUse w) (Body request) (copyResult w) in
    let sent := copySends (bodyUse w) (Body request) (copyResult w) in
    let rr := UpstreamHandler ForwarderSamples.sampleForwarder
                (asRead (bodyUse w) request) in
    let good := (Code rr = StatusCreated \/ Code rr = StatusPartialContent) in
    (written (fst run) = [RecBody rr] <-> good /\ sent = Some None) /\
    (written (fst run) = [RecBody rr] ->
       copyResult w = None /\ snd run = Returns (writeResult w (RecBody rr))) /\
    (answered = true -> ~ good ->
       snd run = Returns (Some (errors_New (ForwarderSamples.sampleStatus (Code rr)))) /\
       written (fst run) = [] /\
       written (serveConn "X-No-Redirect" ForwarderSamples.sampleStatus
                  ForwarderSamples.sampleForwarder w)
         = [bytes_of_string (ForwarderSamples.sampleStatus (Code rr) ++ LF)]) /\
    (forall err, copyResult w = Some err \/ sent = Some (Some err) ->
       written (fst run) = [] /\
       (answered = true -> good -> sent = Some (Some err) ->
        snd run = Returns (Some err))) /\
    (snd run = Blocks <-> answered = false \/ (good /\ sent = None)) /\
    (snd run = Blocks ->
       serveConn "X-No-Redirect" ForwarderSamples.sampleStatus
         ForwarderSamples.sampleForwarder w = [UpstreamServe request]).
Proof.
  apply (handleConn_response "X-No-Redirect" ForwarderSamples.sampleStatus
           ForwarderSamples.sampleForwarder ForwarderSamples.putWorld
           (bytes_of_string ("pcopy:notes.txt" ++ LF ++ "hello"))); reflexivity.
Defined.

(** The sample bridge at work: a forwarded peek becomes one PUT of
    [/notes.txt] whose body is the payload followed by the rest of the
    stream, and the recorded body comes back on the socket. *)
Example serveConn_put_sample :
  serveConn "X-No-Redirect" ForwarderSamples.sampleStatus
    ForwarderSamples.sampleForwarder ForwarderSamples.putWorld =
  [UpstreamServe
     {| Method := "PUT"; URL := "http://localhost:2586/notes.txt";
        RequestURI := "/notes.txt"; RemoteAddr := "10.0.0.1:4711";
        Header := [("X-No-Redirect", "1")];
        Body := bytes_of_string "hello world" |};
   ConnWrite (bytes_of_string "http://localhost/notes.txt");
   ConnClose].
Proof. reflexivity. Qed.

Example serveConn_help_sample :
  serveConn "X-No-Redirect" ForwarderSamples.sampleStatus
    ForwarderSamples.sampleForwarder ForwarderSamples.helpWorld =
  [UpstreamServe
     {| Method := "GET"; URL := "http://localhost:2586/nc";
        RequestURI := "/nc"; RemoteAddr := "10.0.0.1:4711";
        Header := [("X-No-Redirect", "1")]; Body := [] |};
   ConnWrite (bytes_of_string "usage: nc host port");
   ConnClose].
Proof. reflexivity. Qed.

(** *** The timeout-bounded reader *)

(** A read that returns [io.EOF] leaves [io.EOF] in [lastErr]. *)
Lemma Read_EOF_recorded (c : connTimeoutReadCloser) :
  snd (snd (Read c)) = Some io_EOF -> is_EOF (lastErr (fst (Read c))) = true.
Proof.
  unfold Read. destruct (is_EOF (lastErr c)) eqn:E; [intros _; exact E|].
  destruct (SetReadDeadline (conn c) (timeout c)) as [conn1 [e|]] eqn:D.
  - simpl. discriminate.
  - destruct (connRead conn1) as [conn2 [data err]]. simpl. now intros ->.
Qed.

(** With [io.EOF] in [lastErr] a read ends at once and changes nothing. *)
Lemma Read_after_EOF (c : connTimeoutReadCloser) :
  is_EOF (lastErr c) = true -> Read c = (c, ([], Some io_EOF)).
Proof. intros E. unfold Read. now rewrite E. Qed.

Lemma readAgain_after_EOF (touch : Conn -> Conn) (k : nat) (c : connTimeoutReadCloser) :
  is_EOF (lastErr c) = true -> is_EOF (lastErr (readAgain touch k c)) = true.
Proof.
  revert c. induction k as [|k IH]; intros c E; simpl; [exact E|].
  apply IH. rewrite Read_after_EOF; [exact E | exact E].
Qed.

(** C6.  A read whose [conn.Read] fails with an ["i/o timeout"] error
    returns [io.EOF] in place of that error; and after a read that
    returned [io.EOF], whatever happens to the connection and however
    many reads follow, a read returns [io.EOF] with no bytes and leaves
    the reader and its connection as they were: no deadline is set and
    [conn.Read] is not called. *)
Theorem Read_timeout_then_EOF :
  (forall c data e,
      is_EOF (lastErr c) = false ->
      hd None (deadlineResults (conn c)) = None ->
      hd ([], Some io_EOF) (readResults (conn c)) = (data, Some e) ->
      Contains (Error e) "i/o timeout" = true ->
      snd (Read c) = (data, Some io_EOF)) /\
  (forall c touch k,
      snd (snd (Read c)) = Some io_EOF ->
      let c' := touched touch (readAgain touch k (fst (Read c))) in
      Read c' = (c', ([], Some io_EOF)) /\
      calls (conn (fst (Read c'))) = calls (conn c')).
Proof.
  split.
  - intros c data e E D R T. unfold Read, SetReadDeadline, connRead.
    rewrite E, D. cbn [readResults]. rewrite R, T. reflexivity.
  - intros c touch k H c'.
    assert (E : Read c' = (c', ([], Some io_EOF))).
    { apply Read_after_EOF. unfold c', touched. cbn [lastErr].
      apply readAgain_after_EOF, Read_EOF_recorded, H. }
    split; [exact E | now rewrite E].
Qed.

Lemma Read_timeout_then_EOF_witness :
  snd (Read ForwarderSamples.idleReader) = (bytes_of_string "ab", Some io_EOF) /\
  (let c' := touched connClose (readAgain connClose 2 (fst (Read ForwarderSamples.idleReader))) in
   Read c' = (c', ([], Some io_EOF)) /\
   calls (conn (fst (Read c'))) = calls (conn c')).
Proof.
  split.
  - apply (proj1 Read_timeout_then_EOF ForwarderSamples.idleReader
             (bytes_of_string "ab")
             (errorString "read tcp 10.0.0.1:4711: i/o timeout")); reflexivity.
  - apply (proj2 Read_timeout_then_EOF ForwarderSamples.idleReader connClose 2).
    reflexivity.
Defined.

(** *** [listenAndServe] against [shutdown] *)

Lemma step_cancelInstalled (b b' : Bridge) :
  cancelInstalled b -> step b b' -> cancelInstalled b'.
Proof.
  intros I St. destruct St as [listenErr b b' H | b b' H].
  - unfold listenAndServe in H. unfold cancelInstalled in *.
    destruct (point b) as [| | |r].
    + destruct listenErr; injection H as <-; exact I.
    + injection H as <-. reflexivity.
    + destruct (ctxDone b); [|discriminate]. injection H as <-. now split.
    + discriminate.
  - unfold shutdown in H. unfold cancelInstalled in *.
    destruct (cancel (fwd b)) as [[]|] eqn:C; [|discriminate].
    injection H as <-. cbn [point fwd ctxDone].
    destruct (point b) as [| | |[e|]]; rewrite ?C in *;
      try (destruct I; discriminate); intuition.
Qed.

Lemma reachable_cancelInstalled (s : tcpForwarder) (b : Bridge) :
  cancel s = None -> reachable (fresh s) b -> cancelInstalled b.
Proof.
  intros C R. induction R as [|b b' _ IH St].
  - unfold cancelInstalled, fresh. cbn. now split.
  - exact (step_cancelInstalled _ _ IH St).
Qed.

(** C10.  A new bridge has no cancel function, so [shutdown] before
    [listenAndServe] calls a nil function.  The function is installed by
    [listenAndServe] only, once the listener is bound: it is there exactly
    when the call waits on the context or has returned [nil].  While it
    waits, [listenAndServe] does not return by itself; [shutdown] then
    goes through, and after it [listenAndServe] returns [nil]. *)
Theorem shutdown_after_listenAndServe
    (addr upstreamAddr : string) (upstreamHandler : Request -> ResponseRecorder) :
  let b0 := fresh (newTCPForwarder addr upstreamAddr upstreamHandler) in
  shutdown b0 = None /\
  (forall b, reachable b0 b ->
     (cancel (fwd b) <> None <-> point b = Waiting \/ point b = Returned None)) /\
  (forall b, reachable b0 b -> point b = NotCalled -> shutdown b = None) /\
  (forall b, reachable b0 b -> point b = Waiting ->
     (ctxDone b = false -> forall listenErr, listenAndServe listenErr b = None) /\
     exists b', shutdown b = Some b' /\
       forall listenErr, exists b'',
         listenAndServe listenErr b' = Some b'' /\ point b'' = Returned None).
Proof.
  intros b0. split; [reflexivity|].
  assert (I : forall b, reachable b0 b -> cancelInstalled b).
  { intros b. apply reachable_cancelInstalled. reflexivity. }
  split; [|split].
  - intros b R. specialize (I b R). unfold cancelInstalled in I.
    destruct (point b) as [| | |[e|]]; (split; [intros H | intros [H|H]]);
      try discriminate H;
      try (exfalso; apply H; exact (proj1 I));
      try (rewrite I; discriminate);
      try (rewrite (proj1 I); discriminate);
      auto.
  - intros b R P. specialize (I b R). unfold cancelInstalled in I.
    rewrite P in I. unfold shutdown. now rewrite (proj1 I).
  - intros b R P. specialize (I b R). unfold cancelInstalled in I.
    rewrite P in I. split.
    + intros D listenErr. unfold listenAndServe. now rewrite P, D.
    + unfold shutdown. rewrite I. eexists. split; [reflexivity|].
      intros listenErr. unfold listenAndServe. cbn [point ctxDone]. rewrite P.
      eexists. split; reflexivity.
Qed.

Lemma shutdown_after_listenAndServe_witness :
  let b0 := fresh ForwarderSamples.sampleForwarder in
  exists b1 b2 b3 b4,
    listenAndServe None b0 = Some b1 /\ listenAndServe None b1 = Some b2 /\
    point b2 = Waiting /\ listenAndServe None b2 = None /\
    shutdown b2 = Some b3 /\ listenAndServe None b3 = Some b4 /\
    point b4 = Returned None.
Proof.
  intros b0.
  pose (b1 := {| fwd := fwd b0; point := Bound; ctxDone := false |}).
  pose (b2 := {| fwd := withCancel (fwd b0) (Some cancelCtx); point := Waiting;
                 ctxDone := false |}).
  assert (R : reachable b0 b2).
  { apply reach_step with b1; [apply reach_step with b0; [apply reach_start|]|];
      apply step_serve with (listenErr := None); reflexivity. }
  destruct (proj2 (proj2 (proj2
    (shutdown_after_listenAndServe ":9999" "http://localhost:2586"
       ForwarderSamples.sampleHandler))) b2 R eq_refl) as [Hwait [b3 [Hs Hret]]].
  destruct (Hret None) as [b4 [H4 P4]].
  exists b1, b2, b3, b4.
  repeat split; try assumption; try reflexivity.
Defined.

End ForwarderSpec.

(** ** The join orchestrator *)

Module JoinSpec.
Import GoStrings GoError Join JoinTerms GoStringsFacts.
Local Open Scope string_scope.

(** Failures are collected, in the order received, until the first result
    without an error. *)
Lemma receive_failures (pre rest errs : list serverInfoResult) (n : nat) :
  Forall failed pre ->
  receive (List.length pre + n) (pre ++ rest)%list errs
    = receive n rest (errs ++ pre)%list.
Proof.
  revert errs. induction pre as [|r pre IH]; intros errs F; simpl.
  - now rewrite app_nil_r.
  - inversion F as [|r' pre' Fr Fpre]; subst.
    destruct (err r) eqn:E; [|now elim Fr].
    rewrite IH by assumption. now rewrite <- app_assoc.
Qed.

(** C1.  When the results the channel hands over are failures [pre], then
    a result [r] that carries no error and the info [i], then anything
    [post], [readServerInfo] returns [i] and receives nothing of [post];
    no other choice of the failures before and of the results after
    changes what is returned. *)
Theorem readServerInfo_first_success
    (serverAddrs : list string) (pre post : list serverInfoResult)
    (r : serverInfoResult) (i : Info) :
  List.length (pre ++ r :: post)%list = List.length serverAddrs ->
  Forall failed pre ->
  err r = None ->
  info r = Some i ->
  readServerInfo serverAddrs (pre ++ r :: post)%list
    = Some {| returned := inl i; ignored := post |} /\
  (forall pre' post',
      List.length (pre' ++ r :: post')%list = List.length serverAddrs ->
      Forall failed pre' ->
      option_map returned (readServerInfo serverAddrs (pre' ++ r :: post')%list)
        = Some (inl i)).
Proof.
  assert (G : forall pre0 post0,
             List.length (pre0 ++ r :: post0)%list = List.length serverAddrs ->
             Forall failed pre0 -> err r = None -> info r = Some i ->
             readServerInfo serverAddrs (pre0 ++ r :: post0)%list
               = Some {| returned := inl i; ignored := post0 |}).
  { intros pre0 post0 L F E I. unfold readServerInfo.
    rewrite <- L, length_app. cbn [List.length].
    rewrite (receive_failures pre0 (r :: post0) [] _ F).
    cbn [receive]. rewrite E. cbn [gotInfo notReceived]. now rewrite I. }
  intros L F E I. split; [now apply G|].
  intros pre' post' L' F'. now rewrite (G pre' post' L' F' E I).
Qed.

Lemma readServerInfo_first_success_witness :
  let refused :=
    {| addr := "https://nopaste.net:443"; info := None;
       err := Some (errorString "connection refused") |} in
  let answer :=
    {| addr := "https://nopaste.net:2586"; info := Some JoinSamples.sampleInfo;
       err := None |} in
  readServerInfo JoinSamples.sampleAddrs [refused; answer]
    = Some {| returned := inl JoinSamples.sampleInfo; ignored := [] |} /\
  (forall pre' post',
      List.length (pre' ++ answer :: post')%list = List.length JoinSamples.sampleAddrs ->
      Forall failed pre' ->
      option_map returned
        (readServerInfo JoinSamples.sampleAddrs (pre' ++ answer :: post')%list)
        = Some (inl JoinSamples.sampleInfo)).
Proof.
  intros refused answer.
  apply (readServerInfo_first_success JoinSamples.sampleAddrs [refused] []
           answer JoinSamples.sampleInfo).
  - reflexivity.
  - repeat constructor. discriminate.
  - reflexivity.
  - reflexivity.
Defined.

(** *** All candidates fail *)

(** When every result is a failure, all of them are collected. *)
Lemma receive_all_failed (resultChan errs : list serverInfoResult) :
  Forall failed resultChan ->
  receive (List.length resultChan) resultChan errs
    = Some {| gotInfo := None; errs := (errs ++ resultChan)%list; notReceived := [] |}.
Proof.
  intros F.
  pose proof (receive_failures resultChan [] errs 0 F) as H.
  rewrite Nat.add_0_r, app_nil_r in H. rewrite H. reflexivity.
Qed.

Lemma failureMessage_aggregate (errs : list serverInfoResult) :
  failureMessage errs = aggregate (map (fun r => (addr r, errText r)) errs).
Proof.
  unfold failureMessage, aggregate.
  destruct errs as [|r [|r' errs]]; cbn [map]; try reflexivity.
  rewrite !map_map. reflexivity.
Qed.

Lemma queryServer_failed (ServerInfo : string -> option Info * option error)
    (serverAddr : string) :
  snd (ServerInfo serverAddr) <> None ->
  failed (queryServer ServerInfo serverAddr) /\
  (addr (queryServer ServerInfo serverAddr), errText (queryServer ServerInfo serverAddr))
    = entryOf ServerInfo serverAddr.
Proof.
  unfold queryServer, entryOf, failed, errText.
  destruct (ServerInfo serverAddr) as [i [e|]]; cbn; intros H.
  - split; [discriminate | reflexivity].
  - now elim H.
Qed.

(** C2.  When the channel hands over the results of the goroutines, one
    per candidate address, and every query failed, [readServerInfo]
    returns an error and no info.  Its message is ["failed.\n"] followed
    by the aggregate of one entry per candidate, each with the address of
    that candidate and the text of its error, in the order received: one
    line for a single candidate, a bulleted list otherwise. *)
Theorem readServerInfo_all_failed
    (ServerInfo : string -> option Info * option error)
    (serverAddrs : list string) (resultChan : list serverInfoResult) :
  arrivalOf ServerInfo serverAddrs resultChan ->
  (forall a, In a serverAddrs -> snd (ServerInfo a) <> None) ->
  exists entries : list entry,
    Permutation (map (entryOf ServerInfo) serverAddrs) entries /\
    List.length entries = List.length serverAddrs /\
    readServerInfo serverAddrs resultChan
      = Some {| returned := inr (errorString ("failed." ++ LF ++ aggregate entries));
                ignored := [] |} /\
    (forall a e, entries = [(a, e)] ->
       aggregate entries = "Cannot connect to " ++ a ++ ": " ++ e) /\
    (List.length serverAddrs <> 1 ->
       aggregate entries =
         "Cannot connect to any of the servers we tried:" ++ LF ++
         Join (map (fun x : entry => "- " ++ fst x ++ ": " ++ snd x) entries) LF).
Proof.
  intros A Hfail. unfold arrivalOf in A.
  set (entryR := fun r : serverInfoResult => (addr r, errText r)).
  exists (map entryR resultChan).
  assert (Hq : Forall (fun a => failed (queryServer ServerInfo a) /\
                         entryR (queryServer ServerInfo a) = entryOf ServerInfo a)
                 serverAddrs).
  { apply Forall_forall. intros a Ha. apply queryServer_failed, Hfail, Ha. }
  assert (Hmap : map entryR (map (queryServer ServerInfo) serverAddrs)
                 = map (entryOf ServerInfo) serverAddrs).
  { rewrite map_map. apply map_ext_Forall.
    eapply Forall_impl; [|exact Hq]. now intros a [_ H]. }
  assert (F : Forall failed resultChan).
  { eapply Permutation_Forall; [exact A|].
    apply Forall_map. eapply Forall_impl; [|exact Hq]. now intros a [H _]. }
  assert (L : List.length resultChan = List.length serverAddrs).
  { rewrite <- (Permutation_length A). apply length_map. }
  split; [|split; [|split; [|split]]].
  - rewrite <- Hmap. now apply Permutation_map.
  - now rewrite length_map.
  - unfold readServerInfo. rewrite <- L, (receive_all_failed _ [] F).
    cbn [gotInfo errs notReceived app]. now rewrite failureMessage_aggregate.
  - intros a e ->. reflexivity.
  - intros N. rewrite <- L, <- (length_map entryR) in N.
    unfold aggregate. destruct (map entryR resultChan) as [|[a e] [|y l]]; try reflexivity.
    now elim N.
Qed.

Lemma readServerInfo_all_failed_witness :
  exists entries : list entry,
    Permutation (map (entryOf JoinSamples.deadServerInfo) JoinSamples.sampleAddrs) entries /\
    List.length entries = 2 /\
    readServerInfo JoinSamples.sampleAddrs
      (rev (map (queryServer JoinSamples.deadServerInfo) JoinSamples.sampleAddrs))
      = Some {| returned := inr (errorString ("failed." ++ LF ++ aggregate entries));
                ignored := [] |} /\
    (forall a e, entries = [(a, e)] ->
       aggregate entries = "Cannot connect to " ++ a ++ ": " ++ e) /\
    (List.length JoinSamples.sampleAddrs <> 1 ->
       aggregate entries =
         "Cannot connect to any of the servers we tried:" ++ LF ++
         Join (map (fun x : entry => "- " ++ fst x ++ ": " ++ snd x) entries) LF).
Proof.
  apply (readServerInfo_all_failed JoinSamples.deadServerInfo JoinSamples.sampleAddrs
           (rev (map (queryServer JoinSamples.deadServerInfo) JoinSamples.sampleAddrs))).
  - apply Permutation_rev.
  - intros a _. discriminate.
Defined.

(** The message for two dead candidates, the second answering first. *)
Example readServerInfo_dead_sample :
  option_map returned
    (readServerInfo JoinSamples.sampleAddrs
       (rev (map (queryServer JoinSamples.deadServerInfo) JoinSamples.sampleAddrs)))
  = Some (inr (errorString
      ("failed." ++ LF ++ "Cannot connect to any of the servers we tried:" ++ LF ++
       "- https://nopaste.net:443: connection refused" ++ LF ++
       "- https://nopaste.net:2586: connection refused"))).
Proof. reflexivity. Qed.

(** *** Key resolution and the written configuration *)

(** Runs [execJoin] symbolically, case by case on what the outside
    answers. *)
Ltac run_join :=
  unfold run, execJoin, readServerInfoM, resolveKey, readPassword;
  unfold bind, emit, check, try, ret, fail, block.

Ltac ask_outside :=
  repeat (cbn beta iota;
          match goal with
          | |- context [ReadPassword ?w] => destruct (ReadPassword w) eqn:?
          | |- context [DecodeKey ?w ?k] => destruct (DecodeKey w k) eqn:?
          | |- context [Verify ?w ?a ?c ?k] => destruct (Verify w a c k) eqn:?
          | |- context [WriteFile ?w ?c ?f] => destruct (WriteFile w c f) eqn:?
          | |- context [InfoCert ?i] => destruct (InfoCert i) eqn:?
          | |- context [EncodeCert ?w ?c] => destruct (EncodeCert w c) eqn:?
          | |- context [ioutil_WriteFile ?w ?f ?d] =>
              destruct (ioutil_WriteFile w f d) eqn:?
          | |- context [flagQuiet ?w] => destruct (flagQuiet w) eqn:?
          end).

(** C7.  When [execJoin] reaches the key of a server whose info has a
    salt: with a key in the environment there is no prompt and no
    verification, and the decoded key is the one written with the
    configuration (a key that does not decode ends the join with that
    error); without one the password is asked for once, the key derived
    from the password and the salt is verified against the server with
    the certificate of the info, and a failed verification ends the join
    with an error that says so, before any configuration is written. *)
Theorem execJoin_key_resolution (w : World) (info : Info) (salt : bytes) :
  reachesKey w info ->
  Salt info = Some salt ->
  let log := fst (run (execJoin w)) in
  let result := snd (run (execJoin w)) in
  let envKey := Getenv w (EnvKey w) in
  (envKey <> "" ->
     prompts log = 0 /\ verifiedKeys log = [] /\
     (forall key, DecodeKey w envKey = inl key ->
        writtenConfigs log
          = [{| ConfServerAddr := ServerAddr info; ConfKey := Some key |}]) /\
     (forall e, DecodeKey w envKey = inr e ->
        result = Fail e /\ writtenConfigs log = [])) /\
  (envKey = "" ->
     prompts log = 1 /\
     (forall e, ReadPassword w = inr e ->
        result = Fail e /\ verifiedKeys log = [] /\ writtenConfigs log = []) /\
     (forall password, ReadPassword w = inl password ->
        let key := DeriveKey w password salt in
        verifiedKeys log = [(InfoCert info, key)] /\
        (forall e, Verify w (ServerAddr info) (InfoCert info) key = Some e ->
           result = Fail (errorString ("failed to join clipboard: " ++ Error e)) /\
           writtenConfigs log = []) /\
        (Verify w (ServerAddr info) (InfoCert info) key = None ->
           writtenConfigs log
             = [{| ConfServerAddr := ServerAddr info; ConfKey := Some key |}]))).
Proof.
  intros (Hargs & Hflags & Hfile & Hlook & Hclient) Hsalt.
  unfold configFileOf, lookupOf in *.
  destruct (readServerInfo _ _) as [l|] eqn:Hl; [|discriminate].
  cbn in Hlook. injection Hlook as Hret.
  cbv zeta. run_join.
  rewrite Hargs, Hflags, Hfile, Hl, Hret, Hclient, Hsalt.
  destruct (String.eqb_spec (Getenv w (EnvKey w)) "") as [Henv|Henv];
    cbn [negb app]; (split; [intros Hk | intros Hk]); try contradiction.
  all: ask_outside.
  all: cbn [fst snd prompts verifiedKeys writtenConfigs app negb].
  all: repeat split; intros; try discriminate; try congruence.
Qed.

Lemma execJoin_key_resolution_witness :
  let log := fst (run (execJoin JoinSamples.sampleWorld)) in
  let envLog := fst (run (execJoin JoinSamples.envKeyWorld)) in
  (prompts log = 1 /\
   verifiedKeys log = [(None, bytes_of_string "secret/salt")] /\
   writtenConfigs log
     = [{| ConfServerAddr := "https://nopaste.net:2586";
           ConfKey := Some (bytes_of_string "secret/salt") |}]) /\
  (prompts envLog = 0 /\
   verifiedKeys envLog = [] /\
   writtenConfigs envLog
     = [{| ConfServerAddr := "https://nopaste.net:2586";
           ConfKey := Some (bytes_of_string "c2VjcmV0") |}]).
Proof.
  assert (R : reachesKey JoinSamples.sampleWorld JoinSamples.sampleInfo)
    by (repeat split; reflexivity).
  assert (R' : reachesKey JoinSamples.envKeyWorld JoinSamples.sampleInfo)
    by (repeat split; reflexivity).
  pose proof (execJoin_key_resolution JoinSamples.sampleWorld JoinSamples.sampleInfo
                (bytes_of_string "salt") R eq_refl) as [_ H].
  pose proof (execJoin_key_resolution JoinSamples.envKeyWorld JoinSamples.sampleInfo
                (bytes_of_string "salt") R' eq_refl) as [H' _].
  destruct (H eq_refl) as [Hp [_ Hpw]].
  destruct (Hpw (bytes_of_string "secret") eq_refl) as [Hv [_ Hc]].
  destruct (H' ltac:(discriminate)) as [Hp' [Hv' [Hc' _]]].
  split; [split; [exact Hp | split; [exact Hv | exact (Hc eq_refl)]]|].
  split; [exact Hp' | split; [exact Hv' | exact (Hc' _ eq_refl)]].
Defined.

(** C8.  When [execJoin] returns [nil], one configuration was written:
    its [ServerAddr] is the one of the info [readServerInfo] returned, and
    it has a key exactly when that info has a salt. *)
Theorem execJoin_written_config (w : World) (log : list Event) :
  run (execJoin w) = (log, Ok tt) ->
  exists info conf,
    option_map returned (lookupOf w) = Some (inl info) /\
    writtenConfigs log = [conf] /\
    ConfServerAddr conf = ServerAddr info /\
    (ConfKey conf <> None <-> Salt info <> None).
Proof.
  unfold lookupOf. run_join.
  destruct (Nat.ltb (List.length (args w)) 1); [discriminate|].
  destruct (flagForce w && flagAuto w); [discriminate|].
  destruct (fileExists w _ && negb (flagForce w)); [discriminate|].
  destruct (readServerInfo _ _) as [l|]; [|discriminate].
  cbn [option_map]. destruct (returned l) as [info|e]; [|discriminate].
  cbn beta iota.
  destruct (NewClient w _); [discriminate|].
  destruct (Salt info) as [salt|] eqn:Hsalt;
    [destruct (negb (String.eqb (Getenv w (EnvKey w)) ""))|];
    ask_outside; intros H; try discriminate H;
    injection H as <-; exists info; eexists;
    cbn [writtenConfigs app option_map];
    (split; [reflexivity|]); (split; [reflexivity|]); (split; [reflexivity|]);
    cbn [ConfKey]; split; congruence.
Qed.

Lemma execJoin_written_config_witness :
  exists info conf,
    option_map returned (lookupOf JoinSamples.sampleWorld) = Some (inl info) /\
    writtenConfigs (fst (run (execJoin JoinSamples.sampleWorld))) = [conf] /\
    ConfServerAddr conf = ServerAddr info /\
    (ConfKey conf <> None <-> Salt info <> None).
Proof.
  apply (execJoin_written_config JoinSamples.sampleWorld). reflexivity.
Defined.

(** The sample join at work. *)
Example execJoin_sample :
  run (execJoin JoinSamples.sampleWorld) =
  ([EvPrint "Joining clipboard at nopaste.net ... ";
    EvNewClient {| ConfServerAddr := "https://nopaste.net:2586"; ConfKey := None |};
    EvPrompt;
    EvVerify "https://nopaste.net:2586" None (bytes_of_string "secret/salt");
    EvWriteConfig
      {| ConfServerAddr := "https://nopaste.net:2586";
         ConfKey := Some (bytes_of_string "secret/salt") |}
      "/etc/pcopy/work.conf"],
   Ok tt).
Proof. reflexivity. Qed.

End JoinSpec.

(** ** More on the forwarder *)

Module ForwarderExtra.
Import GoStrings GoError Forwarder ForwarderMore GoStringsFacts ForwarderSpec.
Local Open Scope string_scope.

(** *** [extractPath] *)

Lemma bytes_of_string_app (a b : string) :
  bytes_of_string (a ++ b) = (bytes_of_string a ++ bytes_of_string b)%list.
Proof.
  rewrite <- (bytes_of_string_of_bytes (bytes_of_string a ++ bytes_of_string b)).
  now rewrite string_of_bytes_app, !string_of_bytes_of_string.
Qed.

(** A line that [ReadBytes] found ends with the first delimiter of the
    buffer. *)
Lemma ReadBytes_found (delim : byte) (buf line : bytes) :
  ReadBytes delim buf = (line, None) ->
  exists l rest,
    line = (l ++ [delim])%list /\ ~ In delim l /\ buf = (l ++ delim :: rest)%list.
Proof.
  revert line. induction buf as [|b buf IH]; intros line H; simpl in H.
  - discriminate.
  - destruct (Byte.eqb b delim) eqn:E.
    + apply Byte.byte_dec_bl in E. subst b. injection H as <-.
      exists [], buf. repeat split. intros [].
    + destruct (ReadBytes delim buf) as [line' err]. injection H as <- ->.
      destruct (IH line' eq_refl) as [l [rest [-> [Hn ->]]]].
      exists (b :: l), rest. repeat split.
      intros [X|X]; [|now apply Hn].
      subst b. now rewrite (@Byte.byte_dec_lb delim delim eq_refl) in E.
Qed.

(** What [extractPath] returns with an offset other than 0. *)
Lemma extractPath_found (peaked : bytes) :
  snd (extractPath peaked) <> 0 ->
  exists l rest,
    peaked = (l ++ x0a :: rest)%list /\ ~ In x0a l /\
    string_of_bytes l = "pcopy:" ++ fst (extractPath peaked) /\
    snd (extractPath peaked) = List.length (l ++ [x0a]).
Proof.
  intros H.
  assert (E : exists line, ReadBytes x0a peaked = (line, None) /\
                HasPrefix (string_of_bytes line) "pcopy:" = true).
  { unfold extractPath, ReadString in H.
    destruct (ReadBytes x0a peaked) as [line [e|]]; [now elim H|].
    exists line. split; [reflexivity|].
    destruct (HasPrefix (string_of_bytes line) "pcopy:"); [reflexivity | now elim H]. }
  destruct E as [line [Hr Hp]].
  destruct (ReadBytes_found _ _ _ Hr) as [l [rest [-> [Hn ->]]]].
  destruct (extractPath_first_line l rest Hn Hp) as [Hl Hx].
  exists l, rest. rewrite Hx. cbn [fst snd]. now repeat split.
Qed.

(** X1.  The offset [extractPath] returns never points past the peek, so
    [peaked[offset:]] is always in range; it is 0 with the empty path, or
    at least the 7 bytes of ["pcopy:\n"]. *)
Theorem extractPath_offset_in_range (peaked : bytes) :
  snd (extractPath peaked) <= List.length peaked /\
  (snd (extractPath peaked) = 0 -> fst (extractPath peaked) = "") /\
  (snd (extractPath peaked) <> 0 -> 7 <= snd (extractPath peaked)).
Proof.
  destruct (Nat.eq_dec (snd (extractPath peaked)) 0) as [Z|NZ].
  - rewrite Z. split; [lia|]. split; [|intros X; now elim X].
    intros _. unfold extractPath, ReadString in *.
    destruct (ReadBytes x0a peaked) as [line [e|]]; [reflexivity|].
    destruct (negb (HasPrefix (string_of_bytes line) "pcopy:")); [reflexivity|].
    cbn [snd] in Z. rewrite string_of_bytes_length in Z.
    unfold TrimSuffix, TrimPrefix.
    destruct line; [|discriminate Z]. reflexivity.
  - destruct (extractPath_found peaked NZ) as [l [rest [Hp [_ [Hl Ho]]]]].
    pose proof (f_equal (@List.length byte) Hp) as L.
    rewrite length_app in L. cbn [List.length] in L.
    apply (f_equal String.length) in Hl.
    rewrite string_of_bytes_length, append_length in Hl. cbn in Hl.
    rewrite Ho, length_app. cbn [List.length].
    split; [lia|]. split; intros; lia.
Qed.

(** X2.  Path and payload determine the peek and the other way round: a
    peek with an offset other than 0 is ["pcopy:"], the path, a newline
    and the payload, and the path holds no newline; and for a path
    without newline, that line followed by any payload gives back the path
    and the payload. *)
Theorem extractPath_round_trip :
  (forall peaked,
      snd (extractPath peaked) <> 0 ->
      peaked = (bytes_of_string ("pcopy:" ++ fst (extractPath peaked) ++ LF)
                ++ payloadOf peaked)%list /\
      ~ In x0a (bytes_of_string (fst (extractPath peaked)))) /\
  (forall path payload,
      ~ In x0a (bytes_of_string path) ->
      let peaked := (bytes_of_string ("pcopy:" ++ path ++ LF) ++ payload)%list in
      extractPath peaked = (path, 7 + String.length path) /\
      payloadOf peaked = payload).
Proof.
  split.
  - intros peaked NZ.
    destruct (extractPath_found peaked NZ) as [l [rest [Hp [Hn [Hl Ho]]]]].
    assert (Hb : l = bytes_of_string ("pcopy:" ++ fst (extractPath peaked))).
    { now rewrite <- Hl, bytes_of_string_of_bytes. }
    assert (Hpay : payloadOf peaked = rest).
    { unfold payloadOf. rewrite Ho. rewrite Hp at 1.
      replace (l ++ x0a :: rest)%list with ((l ++ [x0a]) ++ rest)%list
        by (rewrite <- app_assoc; reflexivity).
      now rewrite skipn_app, skipn_all, Nat.sub_diag. }
    split.
    + rewrite Hpay. rewrite Hp at 1.
      rewrite <- append_assoc, bytes_of_string_app, <- Hb, <- app_assoc.
      reflexivity.
    + intros X. apply Hn. rewrite Hb, bytes_of_string_app.
      apply in_or_app. now right.
  - intros path payload Hn peaked.
    assert (Hline : ~ In x0a (bytes_of_string ("pcopy:" ++ path))).
    { rewrite bytes_of_string_app. intros X. apply in_app_or in X.
      destruct X as [X|X]; [|now apply Hn].
      vm_compute in X. intuition discriminate. }
    assert (Hsplit : peaked
                     = (bytes_of_string ("pcopy:" ++ path) ++ x0a :: payload)%list).
    { unfold peaked. rewrite <- append_assoc, bytes_of_string_app, <- app_assoc.
      reflexivity. }
    assert (Hpre : HasPrefix
                     (string_of_bytes (bytes_of_string ("pcopy:" ++ path) ++ [x0a]))
                     "pcopy:" = true).
    { rewrite string_of_bytes_app, string_of_bytes_of_string, append_assoc.
      apply HasPrefix_app. }
    destruct (extractPath_first_line _ payload Hline Hpre) as [_ Hx].
    rewrite string_of_bytes_of_string in Hx.
    change (drop 6 ("pcopy:" ++ path)) with path in Hx.
    rewrite length_app in Hx. rewrite <- Hsplit in Hx.
    assert (Hlen : List.length (bytes_of_string ("pcopy:" ++ path)) + List.length [x0a]
                   = 7 + String.length path).
    { rewrite <- string_of_bytes_length, string_of_bytes_of_string, append_length.
      cbn. lia. }
    rewrite Hlen in Hx. split; [exact Hx|].
    unfold payloadOf. rewrite Hx. cbn [snd]. rewrite Hsplit.
    replace (bytes_of_string ("pcopy:" ++ path) ++ x0a :: payload)%list
      with ((bytes_of_string ("pcopy:" ++ path) ++ [x0a]) ++ payload)%list
      by (rewrite <- app_assoc; reflexivity).
    rewrite skipn_app.
    replace (7 + String.length path)
      with (List.length (bytes_of_string ("pcopy:" ++ path) ++ [x0a]))
      by (rewrite length_app; exact Hlen).
    now rewrite skipn_all, Nat.sub_diag.
Qed.

Lemma extractPath_round_trip_witness :
  let peaked := bytes_of_string ("pcopy:a/b" ++ LF ++ "xy") in
  (peaked = (bytes_of_string ("pcopy:" ++ fst (extractPath peaked) ++ LF)
             ++ payloadOf peaked)%list /\
   ~ In x0a (bytes_of_string (fst (extractPath peaked)))) /\
  (extractPath peaked = ("a/b", 10) /\ payloadOf peaked = bytes_of_string "xy").
Proof.
  intros peaked. split.
  - apply (proj1 extractPath_round_trip peaked). vm_compute. discriminate.
  - apply (proj2 extractPath_round_trip "a/b" (bytes_of_string "xy")).
    vm_compute. intuition discriminate.
Defined.

(** *** [handleConn], [handleHelp] and the connection goroutine *)

Section BridgeExtra.
Variable HeaderNoRedirect : string.
Variable Status : Z -> string.
Variable s : tcpForwarder.
Variable w : ConnWorld.

(** X3.  A failure before the upstream handler is reached, of the peek or
    of the construction of the request (for the help as for the forward
    path), is returned wrapped with what failed; the handler is not
    called and nothing is written by [handleConn], and after a failed
    peek the peer gets the one line ["cannot peak: <error>\n"] before the
    connection is closed. *)
Theorem handleConn_fails_before_upstream (peaked : bytes) (e : error) :
  (peakResult (ReadTimeout s) w = (peaked, Some e) ->
     handleConn HeaderNoRedirect Status s w
       = ([], Returns (Some (errorString ("cannot peak: " ++ Error e)))) /\
     serveConn HeaderNoRedirect Status s w
       = [ConnWrite (bytes_of_string ("cannot peak: " ++ Error e ++ LF)); ConnClose]) /\
  (peakResult (ReadTimeout s) w = (peaked, None) ->
     newRequestErr w
       (if String.eqb (TrimSpace (string_of_bytes peaked)) "help"
        then MethodGet else MethodPut)
       (UpstreamAddr s ++ "/" ++
        (if String.eqb (TrimSpace (string_of_bytes peaked)) "help"
         then "nc" else fst (extractPath peaked))) = Some e ->
     handleConn HeaderNoRedirect Status s w
       = ([], Returns (Some (errorString
                              ("cannot create forwarding request: " ++ Error e))))).
Proof.
  split.
  - intros Hp. unfold serveConn, handleConn. rewrite Hp. split; reflexivity.
  - intros Hp Hn. unfold handleConn, handleHelp. rewrite Hp.
    destruct (String.eqb (TrimSpace (string_of_bytes peaked)) "help").
    + cbn [append] in Hn |- *. rewrite Hn. reflexivity.
    + destruct (extractPath peaked) as [path offset]. cbn [fst] in Hn.
      rewrite Hn. reflexivity.
Qed.

(** X4.  [handleHelp] writes the recorded body exactly when the recorded
    status is 200; with another status it returns the status text as
    error and writes nothing.  The request it serves is a GET of [/nc]
    with an empty body, the no-redirect header and the address of the
    peer. *)
Theorem handleHelp_status :
  newRequestErr w MethodGet (UpstreamAddr s ++ "/nc") = None ->
  let request :=
    {| Method := MethodGet; URL := UpstreamAddr s ++ "/nc"; RequestURI := "/nc";
       RemoteAddr := remoteAddr w; Header := [(HeaderNoRedirect, "1")]; Body := [] |} in
  let rr := UpstreamHandler s request in
  served (fst (handleHelp HeaderNoRedirect Status s w)) = [request] /\
  (Code rr = StatusOK ->
     handleHelp HeaderNoRedirect Status s w
       = ([UpstreamServe request; ConnWrite (RecBody rr)], writeResult w (RecBody rr))) /\
  (Code rr <> StatusOK ->
     handleHelp HeaderNoRedirect Status s w
       = ([UpstreamServe request], Some (errors_New (Status (Code rr))))) /\
  (written (fst (handleHelp HeaderNoRedirect Status s w)) = [RecBody rr]
     <-> Code rr = StatusOK).
Proof.
  intros Hn request rr. unfold handleHelp. rewrite Hn.
  fold request. fold rr.
  destruct (Z.eqb_spec (Code rr) StatusOK) as [E|E]; cbn [negb fst served written];
    repeat split; intros; try reflexivity; try congruence; try discriminate.
Qed.



(** X6.  A peek that is not the help command and has no first line with
    the prefix (it does not begin with ["pcopy:"], or it holds no newline)
    is forwarded whole: one PUT of [/] whose body is all the peeked bytes
    followed by the rest of the stream. *)
Theorem handleConn_forwards_whole_peek (peaked : bytes) :
  peakResult (ReadTimeout s) w = (peaked, None) ->
  String.eqb (TrimSpace (string_of_bytes peaked)) "help" = false ->
  HasPrefix (string_of_bytes peaked) "pcopy:" = false \/ ~ In x0a peaked ->
  newRequestErr w MethodPut (UpstreamAddr s ++ "/") = None ->
  served (fst (handleConn HeaderNoRedirect Status s w)) =
    [{| Method := MethodPut; URL := UpstreamAddr s ++ "/"; RequestURI := "/";
        RemoteAddr := remoteAddr w; Header := [(HeaderNoRedirect, "1")];
        Body := (peaked ++ liveBytes w)%list |}].
Proof.
  intros Hp Ht Hx Hn.
  assert (E : extractPath peaked = ("", 0)).
  { destruct Hx as [Hx|Hx];
      [now apply extractPath_no_prefix | now apply extractPath_no_newline]. }
  unfold handleConn. rewrite Hp, Ht, E. cbn [append skipn]. rewrite Hn.
  cbn [Body].
  destruct (negb (handlerReturns (bodyUse w) _ (copyResult w))); [reflexivity|].
  match goal with
  | |- context [UpstreamHandler s ?r] => set (rr := UpstreamHandler s r)
  end.
  destruct (negb (Code rr =? StatusCreated)%Z && negb (Code rr =? StatusPartialContent)%Z);
    [reflexivity|].
  destruct (copySends (bodyUse w) _ (copyResult w)) as [[ce|]|]; reflexivity.
Qed.

End BridgeExtra.

Lemma handleConn_fails_before_upstream_witness :
  (handleConn "X-No-Redirect" ForwarderSamples.sampleStatus
     ForwarderSamples.sampleForwarder resetWorld
     = ([], Returns (Some (errorString "cannot peak: connection reset by peer"))) /\
   serveConn "X-No-Redirect" ForwarderSamples.sampleStatus
     ForwarderSamples.sampleForwarder resetWorld
     = [ConnWrite (bytes_of_string ("cannot peak: connection reset by peer" ++ LF));
        ConnClose]) /\
  handleConn "X-No-Redirect" ForwarderSamples.sampleStatus
    ForwarderSamples.sampleForwarder badPathWorld
    = ([], Returns (Some (errorString
                           "cannot create forwarding request: invalid URL escape"))).
Proof.
  split.
  - apply (proj1 (handleConn_fails_before_upstream "X-No-Redirect"
                    ForwarderSamples.sampleStatus ForwarderSamples.sampleForwarder
                    resetWorld [] (errorString "connection reset by peer"))).
    reflexivity.
  - apply (proj2 (handleConn_fails_before_upstream "X-No-Redirect"
                    ForwarderSamples.sampleStatus ForwarderSamples.sampleForwarder
                    badPathWorld (bytes_of_string ("pcopy:%zz" ++ LF ++ "hello"))
                    (errorString "invalid URL escape"))); reflexivity.
Defined.

Lemma handleHelp_status_witness :
  handleHelp "X-No-Redirect" ForwarderSamples.sampleStatus helplessForwarder
    ForwarderSamples.helpWorld
  = ([UpstreamServe
        {| Method := "GET"; URL := "http://localhost:2586/nc"; RequestURI := "/nc";
           RemoteAddr := "10.0.0.1:4711"; Header := [("X-No-Redirect", "1")];
           Body := [] |}],
     Some (errorString "404 Not Found")).
Proof.
  destruct (handleHelp_status "X-No-Redirect" ForwarderSamples.sampleStatus
              helplessForwarder ForwarderSamples.helpWorld eq_refl)
    as [_ [_ [H _]]].
  apply H. discriminate.
Defined.

Lemma handleConn_forwards_whole_peek_witness :
  served (fst (handleConn "X-No-Redirect" ForwarderSamples.sampleStatus
                 ForwarderSamples.sampleForwarder plainWorld)) =
    [{| Method := "PUT"; URL := "http://localhost:2586/"; RequestURI := "/";
        RemoteAddr := "10.0.0.1:4711"; Header := [("X-No-Redirect", "1")];
        Body := bytes_of_string "hello world" |}].
Proof.
  apply (handleConn_forwards_whole_peek "X-No-Redirect" ForwarderSamples.sampleStatus
           ForwarderSamples.sampleForwarder plainWorld (bytes_of_string "hello"));
    try reflexivity.
  left. reflexivity.
Defined.

(** *** The reader and the body copy *)

(** X7.  When the deadline cannot be set, [Read] returns no bytes and the
    error wrapped as ["cannot set read deadline: ..."]; [conn.Read] is not
    called, nothing of the stream is consumed, and [lastErr] stays as it
    was, so the next read tries again. *)
Theorem Read_deadline_error (c : connTimeoutReadCloser) (e : error) :
  is_EOF (lastErr c) = false ->
  hd None (deadlineResults (conn c)) = Some e ->
  snd (Read c) = ([], Some (errorString ("cannot set read deadline: " ++ Error e))) /\
  calls (conn (fst (Read c))) = (calls (conn c) ++ [CallSetReadDeadline (timeout c)])%list /\
  readResults (conn (fst (Read c))) = readResults (conn c) /\
  lastErr (fst (Read c)) = lastErr c.
Proof.
  intros E D. unfold Read, SetReadDeadline. rewrite E, D. repeat split.
Qed.

Lemma Read_deadline_error_witness :
  snd (Read refusingReader)
    = ([], Some (errorString "cannot set read deadline: use of closed network connection")) /\
  calls (conn (fst (Read refusingReader))) = [CallSetReadDeadline defaultReadTimeout] /\
  readResults (conn (fst (Read refusingReader))) = [(bytes_of_string "ab", None)] /\
  lastErr (fst (Read refusingReader)) = None.
Proof.
  apply (Read_deadline_error refusingReader
           (errorString "use of closed network connection")); reflexivity.
Defined.

(** X8.  [Read] calls [conn.Read] at most once, and only right after a
    [SetReadDeadline] with the timeout of the reader; it makes no call at
    all exactly when [lastErr] is [io.EOF]. *)
Theorem Read_arms_deadline_first (c : connTimeoutReadCloser) :
  exists made,
    calls (conn (fst (Read c))) = (calls (conn c) ++ made)%list /\
    (made = [] \/
     made = [CallSetReadDeadline (timeout c)] \/
     made = [CallSetReadDeadline (timeout c); CallRead]) /\
    (made = [] <-> is_EOF (lastErr c) = true).
Proof.
  unfold Read. destruct (is_EOF (lastErr c)) eqn:E.
  - exists []. cbn. rewrite app_nil_r. repeat split; auto.
  - unfold SetReadDeadline, connRead.
    destruct (hd None (deadlineResults (conn c))) as [e|].
    + exists [CallSetReadDeadline (timeout c)]. cbn.
      split; [reflexivity|]. split; [auto|]. split; intros X; discriminate X.
    + cbn [readResults deadlineResults calls].
      destruct (hd ([], Some io_EOF) (readResults (conn c))) as [data err].
      exists [CallSetReadDeadline (timeout c); CallRead]. cbn.
      rewrite <- app_assoc.
      split; [reflexivity|]. split; [auto|]. split; intros X; discriminate X.
Qed.

(** X9.  The error of a read is [io.EOF], or the wrapped error of
    [SetReadDeadline], or the error of [conn.Read] itself, and that one
    only when its text does not contain ["i/o timeout"]: an expired
    deadline never comes back as an error. *)
Theorem Read_error_kinds (c : connTimeoutReadCloser) (e : error) :
  snd (snd (Read c)) = Some e ->
  e = io_EOF \/
  (exists d, hd None (deadlineResults (conn c)) = Some d /\
             e = Errorf_wrap "cannot set read deadline" d) \/
  (Contains (Error e) "i/o timeout" = false /\
   exists data, hd ([], Some io_EOF) (readResults (conn c)) = (data, Some e)).
Proof.
  unfold Read. destruct (is_EOF (lastErr c)).
  - cbn. intros X. injection X as <-. now left.
  - unfold SetReadDeadline, connRead.
    destruct (hd None (deadlineResults (conn c))) as [d|].
    + cbn. intros X. injection X as <-. right. left. now exists d.
    + cbn [readResults].
      destruct (hd ([], Some io_EOF) (readResults (conn c))) as [data [e'|]]; cbn.
      * destruct (Contains (Error e') "i/o timeout") eqn:T; intros X; injection X as <-.
        -- now left.
        -- right. right. split; [exact T | now exists data].
      * discriminate.
Qed.

Lemma Read_error_kinds_witness :
  io_EOF = io_EOF \/
  (exists d, hd None (deadlineResults (conn ForwarderSamples.idleReader)) = Some d /\
             io_EOF = Errorf_wrap "cannot set read deadline" d) \/
  (Contains (Error io_EOF) "i/o timeout" = false /\
   exists data,
     hd ([], Some io_EOF) (readResults (conn ForwarderSamples.idleReader))
       = (data, Some io_EOF)).
Proof.
  apply (Read_error_kinds ForwarderSamples.idleReader io_EOF). reflexivity.
Defined.

(** X10.  After a read, [lastErr] is [io.EOF] exactly when that read
    returned [io.EOF]: no other error, and no failure to set the
    deadline, stops later reads from going to the connection. *)
Theorem Read_EOF_iff_recorded (c : connTimeoutReadCloser) :
  is_EOF (lastErr (fst (Read c))) = true <-> snd (snd (Read c)) = Some io_EOF.
Proof.
  split; [|apply Read_EOF_recorded].
  unfold Read. destruct (is_EOF (lastErr c)) eqn:E; [reflexivity|].
  unfold SetReadDeadline, connRead.
  destruct (hd None (deadlineResults (conn c))) as [d|]; cbn.
  - rewrite E. discriminate.
  - destruct (hd ([], Some io_EOF) (readResults (conn c))) as [data [e'|]]; cbn.
    + destruct (Contains (Error e') "i/o timeout"); [reflexivity|].
      destruct e'; [reflexivity | discriminate].
    + discriminate.
Qed.

(** The copy over a connection that accepts every deadline, delivers
    [chunks] and then answers [last] with the error [e]. *)
Lemma copyFromConn_chunks (chunks : list bytes) (last : bytes) (e : error)
    (later : list (bytes * option error)) (rounds : nat) (c : connTimeoutReadCloser) :
  deadlineResults (conn c) = [] ->
  readResults (conn c) = (map (fun d => (d, None)) chunks ++ (last, Some e) :: later)%list ->
  is_EOF (lastErr c) = false ->
  List.length chunks < rounds ->
  exists c',
    copyFromConn rounds c
      = Some (c', ((List.concat chunks ++ last)%list,
                   if Contains (Error e) "i/o timeout" then None
                   else if is_EOF (Some e) then None else Some e)) /\
    readResults (conn c') = later.
Proof.
  revert rounds c. induction chunks as [|d chunks IH]; intros rounds c D R E L.
  - destruct rounds as [|rounds]; [cbn in L; lia|].
    cbn [copyFromConn]. unfold Read, SetReadDeadline, connRead.
    rewrite E, D, R. cbn [hd tl map app readResults List.concat].
    destruct (Contains (Error e) "i/o timeout").
    + cbn. eexists. split; reflexivity.
    + destruct e; cbn; eexists; split; reflexivity.
  - destruct rounds as [|rounds]; [cbn in L; lia|].
    cbn [copyFromConn]. unfold Read at 1. unfold SetReadDeadline, connRead.
    rewrite E, D, R. cbn [hd tl map app readResults List.concat].
    match goal with
    | |- context [copyFromConn rounds ?c1] =>
        destruct (IH rounds c1) as [c' [Hc Hl]];
          [reflexivity | reflexivity | reflexivity | cbn in L; lia |]
    end.
    rewrite Hc. exists c'. split; [|exact Hl]. now rewrite <- app_assoc.
Qed.

(** X12.  A stream that pauses ends the body cleanly: when the connection
    delivers some chunks and the next read runs into the deadline (or the
    peer closed), the body sent upstream is the payload of the peek
    followed by every byte received, that read included, and what goes
    to [errChan] is [nil]; any other read error goes to [errChan] as it
    is.  What the connection holds after that is not read. *)
Theorem copyBody_until_pause (chunks : list bytes) (last : bytes) (e : error)
    (later : list (bytes * option error)) (rounds : nat)
    (payload : bytes) (c : connTimeoutReadCloser) :
  deadlineResults (conn c) = [] ->
  readResults (conn c) = (map (fun d => (d, None)) chunks ++ (last, Some e) :: later)%list ->
  is_EOF (lastErr c) = false ->
  List.length chunks < rounds ->
  exists c',
    copyBody rounds payload c
      = Some (c', ((payload ++ List.concat chunks ++ last)%list,
                   if Contains (Error e) "i/o timeout" || is_EOF (Some e)
                   then None else Some e)) /\
    readResults (conn c') = later.
Proof.
  intros D R E L.
  destruct (copyFromConn_chunks chunks last e later rounds c D R E L) as [c' [Hc Hl]].
  exists c'. unfold copyBody. rewrite Hc. split; [|exact Hl].
  destruct (Contains (Error e) "i/o timeout"); reflexivity.
Qed.

Lemma copyBody_until_pause_witness :
  exists c',
    copyBody 3 (bytes_of_string "hello ") pausingReader
      = Some (c', (bytes_of_string "hello abcde", None)) /\
    readResults (conn c') = [(bytes_of_string "late", None)].
Proof.
  apply (copyBody_until_pause [bytes_of_string "ab"; bytes_of_string "cd"]
           (bytes_of_string "e") (errorString "read tcp 10.0.0.1:4711: i/o timeout")
           [(bytes_of_string "late", None)] 3 (bytes_of_string "hello ") pausingReader);
    try reflexivity.
  cbn. lia.
Defined.

(** The peer resets the connection while the handler reads the body to
    its end: the handler never sees the end, [handleConn] does not return
    and the connection stays open. *)
Example serveConn_stalled_sample :
  handleConn "X-No-Redirect" ForwarderSamples.sampleStatus
    ForwarderSamples.sampleForwarder stalledWorld
  = ([UpstreamServe
        {| Method := "PUT"; URL := "http://localhost:2586/notes.txt";
           RequestURI := "/notes.txt"; RemoteAddr := "10.0.0.1:4711";
           Header := [("X-No-Redirect", "1")];
           Body := bytes_of_string "hello wor" |}],
     Blocks) /\
  closes (serveConn "X-No-Redirect" ForwarderSamples.sampleStatus
            ForwarderSamples.sampleForwarder stalledWorld) = 0.
Proof. split; reflexivity. Qed.

(** A handler that answers 201 after two bytes: with the body left open
    the copy is stuck and [handleConn] does not return; with the body
    closed the failed write of the copy is the error of [handleConn]. *)
Example serveConn_hasty_sample :
  snd (handleConn "X-No-Redirect" ForwarderSamples.sampleStatus
         ForwarderSamples.sampleForwarder (hastyWorld false)) = Blocks /\
  written (serveConn "X-No-Redirect" ForwarderSamples.sampleStatus
             ForwarderSamples.sampleForwarder (hastyWorld false)) = [] /\
  snd (handleConn "X-No-Redirect" ForwarderSamples.sampleStatus
         ForwarderSamples.sampleForwarder (hastyWorld true))
    = Returns (Some io_ErrClosedPipe) /\
  written (serveConn "X-No-Redirect" ForwarderSamples.sampleStatus
             ForwarderSamples.sampleForwarder (hastyWorld true))
    = [bytes_of_string ("io: read/write on closed pipe" ++ LF)].
Proof. repeat split; reflexivity. Qed.

(** *** The life of a bridge *)

Lemma servesAlone_waits (s : tcpForwarder) (b : Bridge) :
  cancel s = None ->
  servesAlone (fresh s) b ->
  ctxDone b = false /\ point b <> Returned None /\
  (cancel (fwd b) <> None -> point b = Waiting).
Proof.
  intros C R. induction R as [|listenErr b b' _ IH H].
  - cbn. repeat split; [discriminate | now rewrite C].
  - destruct IH as [D [P W]]. unfold listenAndServe in H.
    destruct (point b) as [| | |r] eqn:Pb.
    + destruct listenErr; injection H as <-; cbn; repeat split;
        try assumption; try discriminate; intros X;
        specialize (W X); discriminate W.
    + injection H as <-. cbn. repeat split; [assumption | discriminate].
    + rewrite D in H. discriminate H.
    + discriminate H.
Qed.

(** X14.  [listenAndServe] returns [nil] only after [shutdown]: in runs
    without [shutdown] the context is never cancelled and the call never
    returns [nil] (once the listener is bound it waits for ever), and in
    every run a returned [nil] means the context was cancelled.  Calling
    [shutdown] again changes nothing. *)
Theorem listenAndServe_returns_after_shutdown
    (addr upstreamAddr : string) (upstreamHandler : Request -> ResponseRecorder) :
  let b0 := fresh (newTCPForwarder addr upstreamAddr upstreamHandler) in
  (forall b, servesAlone b0 b ->
     ctxDone b = false /\ point b <> Returned None /\
     (point b = Waiting -> forall listenErr, listenAndServe listenErr b = None)) /\
  (forall b, reachable b0 b -> point b = Returned None -> ctxDone b = true) /\
  (forall b b', reachable b0 b -> shutdown b = Some b' -> shutdown b' = Some b').
Proof.
  intros b0. split; [|split].
  - intros b R.
    destruct (servesAlone_waits (newTCPForwarder addr upstreamAddr upstreamHandler)
                b eq_refl R) as [D [P _]].
    split; [exact D|]. split; [exact P|].
    intros W listenErr. unfold listenAndServe. now rewrite W, D.
  - intros b R P.
    pose proof (reachable_cancelInstalled
                  (newTCPForwarder addr upstreamAddr upstreamHandler) b eq_refl R) as I.
    unfold cancelInstalled in I. rewrite P in I. apply I.
  - intros b b' _ H. unfold shutdown in *.
    destruct (cancel (fwd b)) as [[]|] eqn:C; [|discriminate H].
    injection H as <-. cbn. rewrite C. reflexivity.
Qed.

End ForwarderExtra.

(** ** The [join] command beyond the claims *)

Module JoinExtra.
Import GoStrings GoError Join JoinTerms JoinMore GoStringsFacts JoinSpec.
Local Open Scope string_scope.

(** The receive loop, read backwards: what it received were failures,
    and it stopped at the first result without an error or after the
    last round. *)
Lemma receive_shape (n : nat) :
  forall (resultChan errs0 : list serverInfoResult) (r : received),
  receive n resultChan errs0 = Some r ->
  exists pre,
    Forall failed pre /\
    errs r = (errs0 ++ pre)%list /\
    ((gotInfo r = None /\ resultChan = (pre ++ notReceived r)%list /\
      List.length pre = n) \/
     (exists x, resultChan = (pre ++ x :: notReceived r)%list /\
                err x = None /\ gotInfo r = info x /\ List.length pre < n)).
Proof.
  induction n as [|n IH]; intros resultChan errs0 r H; simpl in H.
  - injection H as <-. exists []. cbn. rewrite app_nil_r.
    split; [constructor|]. split; [reflexivity|]. left. repeat split.
  - destruct resultChan as [|x later]; [discriminate|].
    destruct (err x) as [e|] eqn:E.
    + destruct (IH _ _ _ H) as (pre & F & Herrs & Hcase).
      exists (x :: pre). split.
      { constructor; [unfold failed; congruence | exact F]. }
      split.
      { rewrite Herrs, <- app_assoc. reflexivity. }
      destruct Hcase as [(G & C & L) | (y & C & Ey & G & L)].
      * left. cbn. rewrite C at 1. repeat split; auto.
      * right. exists y. cbn. rewrite C at 1. repeat split; auto. lia.
    + injection H as <-. exists []. cbn. rewrite app_nil_r.
      split; [constructor|]. split; [reflexivity|].
      right. exists x. repeat split; auto. lia.
Qed.

Lemma receive_blocks (n : nat) :
  forall (resultChan errs0 : list serverInfoResult),
  receive n resultChan errs0 = None <->
  Forall failed resultChan /\ List.length resultChan < n.
Proof.
  induction n as [|n IH]; intros resultChan errs0; simpl.
  - split; [discriminate | intros [_ L]; lia].
  - destruct resultChan as [|x later].
    + split; [intros _; split; [constructor | cbn; lia] | reflexivity].
    + destruct (err x) as [e|] eqn:E.
      * rewrite IH. cbn [List.length]. split.
        -- intros [F L]. split; [|lia].
           constructor; [unfold failed; congruence | exact F].
        -- intros [F L]. inversion F; subst. split; [assumption | lia].
      * split; [discriminate|]. intros [F _]. inversion F as [|? ? Fx]; subst.
        now elim Fx.
Qed.

Lemma readServerInfo_shape (serverAddrs : list string)
    (resultChan : list serverInfoResult) (l : lookup) :
  readServerInfo serverAddrs resultChan = Some l ->
  exists pre,
    Forall failed pre /\
    ((exists r i,
        resultChan = (pre ++ r :: ignored l)%list /\
        err r = None /\ info r = Some i /\
        returned l = inl i /\
        List.length pre < List.length serverAddrs) \/
     (returned l = inr (errorString ("failed." ++ LF ++ failureMessage pre)) /\
      ((resultChan = (pre ++ ignored l)%list /\
        List.length pre = List.length serverAddrs) \/
       (exists r,
          resultChan = (pre ++ r :: ignored l)%list /\
          err r = None /\ info r = None /\
          List.length pre < List.length serverAddrs)))).
Proof.
  unfold readServerInfo.
  destruct (receive _ _ _) as [r|] eqn:R; [|discriminate].
  destruct (receive_shape _ _ _ _ R) as (pre & F & Herrs & Hcase).
  cbn in Herrs. intros H. exists pre. split; [exact F|].
  destruct Hcase as [(G & C & L) | (x & C & Ex & G & L)].
  - rewrite G in H. injection H as <-. cbn. right.
    rewrite Herrs. split; [reflexivity|]. left. split; assumption.
  - rewrite G in H. destruct (info x) as [i|] eqn:I; injection H as <-; cbn.
    + left. exists x, i. repeat split; assumption.
    + right. rewrite Herrs. split; [reflexivity|]. right.
      exists x. repeat split; assumption.
Qed.

(** X15.  Whatever [readServerInfo] returns, what it received before
    were failures only, fewer than or as many as there are candidates.
    An info is the one of the first result without an error, and the
    results after that one are never received.  An error carries
    ["failed.\n"] and the message built from exactly the failures
    received: either every candidate failed and nothing is left in the
    channel, or the first result without an error carried no info
    either. *)
Theorem readServerInfo_returns (serverAddrs : list string)
    (resultChan : list serverInfoResult) (l : lookup) :
  readServerInfo serverAddrs resultChan = Some l ->
  exists pre,
    Forall failed pre /\
    ((exists r i,
        resultChan = (pre ++ r :: ignored l)%list /\
        err r = None /\ info r = Some i /\
        returned l = inl i /\
        List.length pre < List.length serverAddrs) \/
     (returned l = inr (errorString ("failed." ++ LF ++ failureMessage pre)) /\
      ((resultChan = (pre ++ ignored l)%list /\
        List.length pre = List.length serverAddrs) \/
       (exists r,
          resultChan = (pre ++ r :: ignored l)%list /\
          err r = None /\ info r = None /\
          List.length pre < List.length serverAddrs)))).
Proof. exact (readServerInfo_shape serverAddrs resultChan l). Qed.

Lemma readServerInfo_returns_witness :
  exists pre,
    Forall failed pre /\
    ((exists r i,
        rev (map (queryServer JoinSamples.sampleServerInfo) JoinSamples.sampleAddrs)
          = (pre ++ r :: [])%list /\
        err r = None /\ info r = Some i /\
        @inl Info error JoinSamples.sampleInfo = inl i /\
        List.length pre < List.length JoinSamples.sampleAddrs) \/
     (@inl Info error JoinSamples.sampleInfo
        = inr (errorString ("failed." ++ LF ++ failureMessage pre)) /\
      ((rev (map (queryServer JoinSamples.sampleServerInfo) JoinSamples.sampleAddrs)
          = (pre ++ [])%list /\
        List.length pre = List.length JoinSamples.sampleAddrs) \/
       (exists r,
          rev (map (queryServer JoinSamples.sampleServerInfo) JoinSamples.sampleAddrs)
            = (pre ++ r :: [])%list /\
          err r = None /\ info r = None /\
          List.length pre < List.length JoinSamples.sampleAddrs)))).
Proof.
  exact (readServerInfo_returns JoinSamples.sampleAddrs
           (rev (map (queryServer JoinSamples.sampleServerInfo) JoinSamples.sampleAddrs))
           {| returned := inl JoinSamples.sampleInfo; ignored := [] |} eq_refl).
Defined.

(** X16.  [readServerInfo] never returns exactly when the channel hands
    over fewer results than there are candidates and all of them are
    failures. *)
Theorem readServerInfo_blocks_iff (serverAddrs : list string)
    (resultChan : list serverInfoResult) :
  readServerInfo serverAddrs resultChan = None <->
  Forall failed resultChan /\ List.length resultChan < List.length serverAddrs.
Proof.
  rewrite <- (receive_blocks (List.length serverAddrs) resultChan []).
  unfold readServerInfo.
  destruct (receive _ _ _) as [r|]; [|tauto].
  destruct (gotInfo r); split; discriminate.
Qed.

Lemma queryServer_answer (ServerInfo : string -> option Info * option error)
    (serverAddr : string) :
  err (queryServer ServerInfo serverAddr) = None ->
  ServerInfo serverAddr = (info (queryServer ServerInfo serverAddr), None).
Proof.
  unfold queryServer. destruct (ServerInfo serverAddr) as [i [e|]]; cbn.
  - discriminate.
  - reflexivity.
Qed.

(** X17.  When every goroutine delivers its result, in whatever order,
    and a query without an error always comes with an info,
    [readServerInfo] returns: an info that one of the candidates
    answered without an error, or an error, and that only when the query
    of every candidate failed. *)
Theorem readServerInfo_any_order
    (ServerInfo : string -> option Info * option error)
    (serverAddrs : list string) (resultChan : list serverInfoResult) :
  arrivalOf ServerInfo serverAddrs resultChan ->
  (forall a, In a serverAddrs ->
     snd (ServerInfo a) = None -> fst (ServerInfo a) <> None) ->
  exists l,
    readServerInfo serverAddrs resultChan = Some l /\
    match returned l with
    | inl i => exists a, In a serverAddrs /\ ServerInfo a = (Some i, None)
    | inr _ => forall a, In a serverAddrs -> snd (ServerInfo a) <> None
    end.
Proof.
  intros P Hinfo.
  assert (L : List.length resultChan = List.length serverAddrs).
  { rewrite <- (Permutation_length P). apply length_map. }
  assert (Hin : forall r, In r resultChan ->
            exists a, In a serverAddrs /\ r = queryServer ServerInfo a).
  { intros r Hr. apply (Permutation_in _ (Permutation_sym P)) in Hr.
    apply in_map_iff in Hr. destruct Hr as (a & <- & Ha). exists a. auto. }
  destruct (readServerInfo serverAddrs resultChan) as [l|] eqn:R.
  2:{ unfold readServerInfo in R.
      destruct (receive _ _ _) as [r|] eqn:Rc; [destruct (gotInfo r); discriminate R|].
      apply receive_blocks in Rc. lia. }
  exists l. split; [reflexivity|].
  destruct (readServerInfo_shape _ _ _ R) as (pre & F & Hcase).
  destruct Hcase as [(r & i & C & Er & Ir & Ret & Lp) | (Ret & Hcase)]; rewrite Ret.
  - destruct (Hin r) as (a & Ha & ->).
    { rewrite C. apply in_or_app. right. left. reflexivity. }
    exists a. split; [exact Ha|].
    rewrite (queryServer_answer _ _ Er), Ir. reflexivity.
  - destruct Hcase as [(C & Lp) | (r & C & Er & Ir & Lp)].
    + intros a Ha.
      assert (I : In (queryServer ServerInfo a) resultChan).
      { apply (Permutation_in _ P). apply in_map. exact Ha. }
      assert (E : ignored l = []).
      { apply (f_equal (@List.length _)) in C. rewrite length_app in C.
        destruct (ignored l); [reflexivity | cbn in C; lia]. }
      rewrite C, E, app_nil_r in I.
      rewrite Forall_forall in F. specialize (F _ I).
      unfold failed in F. intros S. apply F.
      unfold queryServer. destruct (ServerInfo a) as [i [e|]]; cbn in *;
        [discriminate S | reflexivity].
    + destruct (Hin r) as (a & Ha & ->).
      { rewrite C. apply in_or_app. right. left. reflexivity. }
      exfalso. apply (Hinfo a Ha).
      * rewrite (queryServer_answer _ _ Er). reflexivity.
      * rewrite (queryServer_answer _ _ Er), Ir. reflexivity.
Qed.

Lemma readServerInfo_any_order_witness :
  exists l,
    readServerInfo JoinSamples.sampleAddrs
      (rev (map (queryServer JoinSamples.sampleServerInfo) JoinSamples.sampleAddrs))
      = Some l /\
    match returned l with
    | inl i => exists a, In a JoinSamples.sampleAddrs /\
                         JoinSamples.sampleServerInfo a = (Some i, None)
    | inr _ => forall a, In a JoinSamples.sampleAddrs ->
                         snd (JoinSamples.sampleServerInfo a) <> None
    end.
Proof.
  apply (readServerInfo_any_order JoinSamples.sampleServerInfo JoinSamples.sampleAddrs).
  - apply Permutation_rev.
  - intros a [<- | [<- | []]]; vm_compute; intros H1 H2;
      (discriminate H1 || discriminate H2).
Defined.

(** *** [execJoin] *)

Ltac read_log :=
  cbn [fst snd app negb prompts verifiedKeys writtenConfigs writtenCerts
       configFiles instructions clients].

(** X18.  [execJoin] rejects a command line before it does anything:
    without a server address, with both [--auto] and [--force], and with
    an existing configuration file of the clipboard unless [--force] is
    given, it returns the error of that case, and no server was queried,
    nothing was printed, asked for or written. *)
Theorem execJoin_rejects_before_network (w : World) :
  (List.length (args w) = 0 ->
   run (execJoin w)
     = ([], Fail (errorString "missing server address, see --help for usage details"))) /\
  (List.length (args w) <> 0 -> flagForce w = true -> flagAuto w = true ->
   run (execJoin w) = ([], Fail (errorString "cannot use both --auto and --force"))) /\
  (List.length (args w) <> 0 -> flagForce w = false ->
   fileExists w (configFileOf w) = true ->
   run (execJoin w)
     = ([], Fail (errorString ("config file " ++ configFileOf w ++
          " exists, you may want to specify a different clipboard name, or use --force to override")))).
Proof.
  unfold configFileOf. run_join. repeat split.
  - intros ->. reflexivity.
  - intros Ha -> ->. destruct (args w); [now elim Ha | reflexivity].
  - intros Ha -> ->. destruct (args w); [now elim Ha | reflexivity].
Qed.

Lemma execJoin_rejects_before_network_witness :
  run (execJoin (withCommandLine JoinSamples.sampleWorld false false [] (fun _ => false)))
    = ([], Fail (errorString "missing server address, see --help for usage details")) /\
  run (execJoin (withCommandLine JoinSamples.sampleWorld true true ["nopaste.net"]
                   (fun _ => false)))
    = ([], Fail (errorString "cannot use both --auto and --force")) /\
  run (execJoin (withCommandLine JoinSamples.sampleWorld false true ["nopaste.net"; "work"]
                   (fun _ => true)))
    = ([], Fail (errorString ("config file /etc/pcopy/work.conf" ++
         " exists, you may want to specify a different clipboard name, or use --force to override"))).
Proof.
  split; [|split].
  - apply (execJoin_rejects_before_network
             (withCommandLine JoinSamples.sampleWorld false false [] (fun _ => false))).
    reflexivity.
  - apply (execJoin_rejects_before_network
             (withCommandLine JoinSamples.sampleWorld true true ["nopaste.net"]
                (fun _ => false))); [discriminate | reflexivity | reflexivity].
  - apply (execJoin_rejects_before_network
             (withCommandLine JoinSamples.sampleWorld false true ["nopaste.net"; "work"]
                (fun _ => true))); [discriminate | reflexivity | reflexivity].
Defined.

(** X19.  When the command line is accepted: an error of
    [readServerInfo] is the error of [execJoin], and all that happened
    before is the line that announces the join; a [readServerInfo] that
    never returns keeps [execJoin] from returning; an error of
    [NewClient] is the error of [execJoin], after the announcement and
    the creation of the client only.  In each case no password was asked
    for, no key verified, no file written and no instructions printed. *)
Theorem execJoin_stops_without_server (w : World) :
  accepted w ->
  let announced := EvPrint ("Joining clipboard at " ++ nth 0 (args w) "" ++ " ... ") in
  (forall e, option_map returned (lookupOf w) = Some (inr e) ->
     run (execJoin w) = ([announced], Fail e)) /\
  (lookupOf w = None -> run (execJoin w) = ([announced], Blocked)) /\
  (forall info e, option_map returned (lookupOf w) = Some (inl info) ->
     NewClient w {| ConfServerAddr := ServerAddr info; ConfKey := None |} = Some e ->
     run (execJoin w)
       = ([announced;
           EvNewClient {| ConfServerAddr := ServerAddr info; ConfKey := None |}],
          Fail e)).
Proof.
  intros (Hargs & Hflags & Hfile).
  unfold configFileOf, lookupOf in *.
  cbv zeta. run_join. rewrite Hargs, Hflags, Hfile.
  destruct (readServerInfo _ _) as [l|] eqn:Hl; cbn [option_map]; cbn beta iota.
  - split; [|split].
    + intros e H. injection H as ->. reflexivity.
    + discriminate.
    + intros info e H Hclient. injection H as ->. cbn beta iota.
      rewrite Hclient. reflexivity.
  - split; [|split]; try discriminate. reflexivity.
Qed.

Lemma execJoin_stops_without_server_witness :
  run (execJoin deadWorld)
    = ([EvPrint "Joining clipboard at nopaste.net ... "],
       Fail (errorString ("failed." ++ LF ++
         "Cannot connect to any of the servers we tried:" ++ LF ++
         "- https://nopaste.net:2586: connection refused" ++ LF ++
         "- https://nopaste.net:443: connection refused"))).
Proof.
  assert (A : accepted deadWorld) by (repeat split; reflexivity).
  destruct (execJoin_stops_without_server deadWorld A) as [H _].
  exact (H _ eq_refl).
Defined.

(** X20.  When [execJoin] reaches the key of a server whose info has no
    salt, it asks for no password and verifies no key, whatever the
    environment holds, and the configuration it writes has no key; it is
    written to the configuration file of the clipboard. *)
Theorem execJoin_no_salt_no_key (w : World) (info : Info) :
  reachesKey w info ->
  Salt info = None ->
  let log := fst (run (execJoin w)) in
  prompts log = 0 /\
  verifiedKeys log = [] /\
  writtenConfigs log = [{| ConfServerAddr := ServerAddr info; ConfKey := None |}] /\
  configFiles log = [configFileOf w].
Proof.
  intros (Hargs & Hflags & Hfile & Hlook & Hclient) Hsalt.
  unfold configFileOf, lookupOf in *.
  destruct (readServerInfo _ _) as [l|] eqn:Hl; [|discriminate].
  cbn in Hlook. injection Hlook as Hret.
  cbv zeta. run_join.
  rewrite Hargs, Hflags, Hfile, Hl, Hret, Hclient, Hsalt.
  ask_outside; read_log; repeat split.
Qed.

Lemma execJoin_no_salt_no_key_witness :
  let log := fst (run (execJoin openWorld)) in
  prompts log = 0 /\
  verifiedKeys log = [] /\
  writtenConfigs log
    = [{| ConfServerAddr := "https://nopaste.net:2586"; ConfKey := None |}] /\
  configFiles log = ["/etc/pcopy/default.conf"].
Proof.
  assert (R : reachesKey openWorld openInfo) by (repeat split; reflexivity).
  exact (execJoin_no_salt_no_key openWorld openInfo R eq_refl).
Defined.

(** X21.  When [execJoin] returns [nil]: the configuration went to the
    configuration file of the clipboard and that write reported no
    error; a certificate file was written exactly when the info has a
    certificate, once, to the certificate file next to the configuration
    and with the encoded certificate; and the instructions were printed
    once for that file and clipboard, unless [--quiet] was given. *)
Theorem execJoin_success_files (w : World) (log : list Event) :
  run (execJoin w) = (log, Ok tt) ->
  exists info conf,
    option_map returned (lookupOf w) = Some (inl info) /\
    writtenConfigs log = [conf] /\
    configFiles log = [configFileOf w] /\
    WriteFile w conf (configFileOf w) = None /\
    match InfoCert info with
    | Some cert =>
        exists certsEncoded,
          EncodeCert w cert = inl certsEncoded /\
          writtenCerts log = [(DefaultCertFile w (configFileOf w) false, certsEncoded)] /\
          ioutil_WriteFile w (DefaultCertFile w (configFileOf w) false) certsEncoded = None
    | None => writtenCerts log = []
    end /\
    instructions log
      = (if flagQuiet w then [] else [(configFileOf w, clipboardOf w)]).
Proof.
  unfold lookupOf, configFileOf, clipboardOf. run_join.
  destruct (Nat.ltb (List.length (args w)) 1); [discriminate|].
  destruct (flagForce w && flagAuto w); [discriminate|].
  destruct (fileExists w _ && negb (flagForce w)); [discriminate|].
  destruct (readServerInfo _ _) as [l|]; [|discriminate].
  cbn [option_map]. destruct (returned l) as [info|e]; [|discriminate].
  cbn beta iota.
  destruct (NewClient w _); [discriminate|].
  destruct (Salt info) as [salt|] eqn:Hsalt;
    [destruct (negb (String.eqb (Getenv w (EnvKey w)) ""))|];
    ask_outside; intros H; try discriminate H;
    injection H as <-; exists info; eexists;
    read_log;
    (split; [reflexivity|]); (split; [reflexivity|]); (split; [reflexivity|]);
    (split; [eassumption|]);
    (split; [|reflexivity]);
    match goal with
    | E : InfoCert info = Some _ |- _ => rewrite E; eexists; repeat split; eassumption
    | E : InfoCert info = None |- _ => rewrite E; reflexivity
    end.
Qed.

Lemma execJoin_success_files_witness :
  exists info conf,
    option_map returned (lookupOf openWorld) = Some (inl info) /\
    writtenConfigs (fst (run (execJoin openWorld))) = [conf] /\
    configFiles (fst (run (execJoin openWorld))) = [configFileOf openWorld] /\
    WriteFile openWorld conf (configFileOf openWorld) = None /\
    match InfoCert info with
    | Some cert =>
        exists certsEncoded,
          EncodeCert openWorld cert = inl certsEncoded /\
          writtenCerts (fst (run (execJoin openWorld)))
            = [(DefaultCertFile openWorld (configFileOf openWorld) false, certsEncoded)] /\
          ioutil_WriteFile openWorld
            (DefaultCertFile openWorld (configFileOf openWorld) false) certsEncoded = None
    | None => writtenCerts (fst (run (execJoin openWorld))) = []
    end /\
    instructions (fst (run (execJoin openWorld)))
      = (if flagQuiet openWorld then []
         else [(configFileOf openWorld, clipboardOf openWorld)]).
Proof.
  apply (execJoin_success_files openWorld). reflexivity.
Defined.

(** X22.  In every run of [execJoin], however it ends: a configuration
    is written at most once and only after the client was created; a
    certificate file is written only after the write of the
    configuration reported no error; and the instructions are printed
    only by a run that returns [nil] without [--quiet]. *)
Theorem execJoin_effect_order (w : World) :
  let log := fst (run (execJoin w)) in
  let result := snd (run (execJoin w)) in
  (List.length (writtenConfigs log) <= 1 /\
   (writtenConfigs log <> [] ->
    exists info,
      option_map returned (lookupOf w) = Some (inl info) /\
      clients log = [{| ConfServerAddr := ServerAddr info; ConfKey := None |}] /\
      NewClient w {| ConfServerAddr := ServerAddr info; ConfKey := None |} = None)) /\
  (writtenCerts log <> [] ->
   exists conf,
     writtenConfigs log = [conf] /\ WriteFile w conf (configFileOf w) = None) /\
  (instructions log <> [] -> result = Ok tt /\ flagQuiet w = false).
Proof.
  unfold lookupOf, configFileOf. cbv zeta. run_join.
  destruct (Nat.ltb (List.length (args w)) 1);
    [read_log; cbn; intuition (congruence || lia)|].
  destruct (flagForce w && flagAuto w);
    [read_log; cbn; intuition (congruence || lia)|].
  destruct (fileExists w _ && negb (flagForce w));
    [read_log; cbn; intuition (congruence || lia)|].
  destruct (readServerInfo _ _) as [l|];
    [|read_log; cbn; intuition (congruence || lia)].
  cbn [option_map]. destruct (returned l) as [info|e];
    [|read_log; cbn; intuition (congruence || lia)].
  cbn beta iota.
  destruct (NewClient w _) eqn:Hclient;
    [read_log; cbn; intuition (congruence || lia)|].
  destruct (Salt info) as [salt|] eqn:Hsalt;
    [destruct (negb (String.eqb (Getenv w (EnvKey w)) ""))|];
    ask_outside; read_log; cbn [List.length];
    (split;
       [split;
          [lia
          |first [ intros C; now elim C
                 | intros _; exists info;
                   split; [reflexivity | split; [reflexivity | assumption]] ]]|]);
    (split;
       [first [ intros C; now elim C
              | intros _; eexists; split; [reflexivity | eassumption] ]|]);
    first [ intros C; now elim C | intros _; split; reflexivity ].
Qed.

(** X23.  A key that [execJoin] writes with a configuration comes from
    one of two places: it is the key of the environment, decoded, or,
    with no key in the environment, the key derived from the password
    read at the prompt and the salt of the info, and then the server
    verified that key without an error before the configuration was
    written. *)
Theorem execJoin_persisted_key_origin (w : World) (conf : Config) (key : Key) :
  In conf (writtenConfigs (fst (run (execJoin w)))) ->
  ConfKey conf = Some key ->
  let envKey := Getenv w (EnvKey w) in
  (envKey <> "" /\ DecodeKey w envKey = inl key) \/
  (envKey = "" /\
   exists info password salt,
     option_map returned (lookupOf w) = Some (inl info) /\
     Salt info = Some salt /\
     ReadPassword w = inl password /\
     key = DeriveKey w password salt /\
     Verify w (ServerAddr info) (InfoCert info) key = None /\
     verifiedKeys (fst (run (execJoin w))) = [(InfoCert info, key)]).
Proof.
  unfold lookupOf. cbv zeta. run_join.
  destruct (Nat.ltb (List.length (args w)) 1); [intros []|].
  destruct (flagForce w && flagAuto w); [intros []|].
  destruct (fileExists w _ && negb (flagForce w)); [intros []|].
  destruct (readServerInfo _ _) as [l|]; [|intros []].
  cbn [option_map]. destruct (returned l) as [info|e]; [|intros []].
  cbn beta iota.
  destruct (NewClient w _); [intros []|].
  destruct (Salt info) as [salt|] eqn:Hsalt;
    [destruct (String.eqb_spec (Getenv w (EnvKey w)) "") as [Henv|Henv]; cbn [negb]|];
    ask_outside; read_log; intros Hin Hkey;
    try (now elim Hin);
    destruct Hin as [<- | []]; cbn [ConfKey] in Hkey; try discriminate Hkey;
    injection Hkey as <-.
  all: try (left; split; [assumption | reflexivity]).
  all: right; split; [assumption|];
       exists info; eexists; eexists;
       repeat split; try eassumption; try reflexivity;
       try (match goal with E : InfoCert _ = _ |- _ => rewrite E end;
            first [eassumption | reflexivity]).
Qed.

Lemma execJoin_persisted_key_origin_witness :
  let envKey := Getenv JoinSamples.sampleWorld (EnvKey JoinSamples.sampleWorld) in
  let key := bytes_of_string "secret/salt" in
  (envKey <> "" /\ DecodeKey JoinSamples.sampleWorld envKey = inl key) \/
  (envKey = "" /\
   exists info password salt,
     option_map returned (lookupOf JoinSamples.sampleWorld) = Some (inl info) /\
     Salt info = Some salt /\
     ReadPassword JoinSamples.sampleWorld = inl password /\
     key = DeriveKey JoinSamples.sampleWorld password salt /\
     Verify JoinSamples.sampleWorld (ServerAddr info) (InfoCert info) key = None /\
     verifiedKeys (fst (run (execJoin JoinSamples.sampleWorld))) = [(InfoCert info, key)]).
Proof.
  apply (execJoin_persisted_key_origin JoinSamples.sampleWorld
           {| ConfServerAddr := "https://nopaste.net:2586";
              ConfKey := Some (bytes_of_string "secret/salt") |}).
  - left. reflexivity.
  - reflexivity.
Defined.

(** *** [printInstructions] *)

(** X24.  [printInstructions] prints the two lines of the warning about
    a pinned self-signed certificate exactly when the info has a
    certificate, between the line that reports the join and the line
    that tells how to go on; and the line that tells how to go on names
    the clipboard exactly when it is not the default one: the commands
    are [pcp] and [ppaste] when [/usr/bin/pcp] exists, [pcopy copy] and
    [pcopy paste] otherwise. *)
Theorem printInstructions_warning (DefaultClipboard : string)
    (CollapseHome : string -> string) (pcpInstalled : bool)
    (configFile clipboard : string) (info : Info) :
  let out := printInstructions DefaultClipboard CollapseHome pcpInstalled
               configFile clipboard info in
  let alias := if String.eqb clipboard DefaultClipboard then ""
               else " " ++ clipboard ++ ":" in
  (In warningPinned out <-> InfoCert info <> None) /\
  (In warningIntercepted out <-> InfoCert info <> None) /\
  List.length out = match InfoCert info with Some _ => 6 | None => 3 end /\
  last out ""
    = (if pcpInstalled then
         "You may now use 'pcp" ++ alias ++ "' and 'ppaste" ++ alias
           ++ "'. See 'pcopy -h' for usage details." ++ LF
       else
         "You may now use 'pcopy copy" ++ alias ++ "' and 'pcopy paste" ++ alias
           ++ "'. See 'pcopy -h' for usage details." ++ LF).
Proof.
  cbv zeta. unfold printInstructions.
  destruct (String.eqb clipboard DefaultClipboard) eqn:E; cbn [negb];
    destruct (InfoCert info) as [cert|]; destruct pcpInstalled;
    cbn [List.app last hd List.length In].
  all: split; [|split; [|split; [reflexivity|]]].
  all: try (split; [discriminate | intros _; auto 10]).
  all: try (split; [|intros H; now elim H];
            unfold warningPinned, warningIntercepted, CR, LF;
            intros [H | [H | [H | []]]]; cbn in H; discriminate H).
  all: reflexivity.
Qed.

End JoinExtra.
